(** * NPI directory harvester: search-space partitioning, retry and clean-up

    A shallow embedding of [scraper.py] (class [NPIScraper]) and the
    properties of its partitioner, retry runner, orchestrator and
    finalizer.

    Conventions of the embedding:
    - Python [str] values are [string]s (bytes); the model covers ASCII
      text, which is what the query alphabet, the region codes, the
      error messages that are inspected and the address abbreviations use.
    - Python [int]s are [Z].
    - An exception is represented by its message ([str(e)]), the only
      part of it the program inspects.
    - The browser, the remote site and the clock are an abstract
      environment [Env] reached through the [Browser] interface; every
      call may fail and may change the environment.
    - [World] adds to the environment the two files the program writes and
      a trace of the externally visible actions (navigations, sleeps,
      browser restarts). *)

From Stdlib Require Import ZArith Ascii String List Bool Lia.
From stdpp Require Import base tactics option list strings gmap.

Local Open Scope string_scope.
Local Open Scope Z_scope.
Local Open Scope list_scope.

(** ** Strings *)

Module Str.

(** [c.lower()] on an ASCII character. *)
Definition lower_ascii (c : ascii) : ascii :=
  let n := nat_of_ascii c in
  if ((65 <=? n)%nat && (n <=? 90)%nat)%bool then ascii_of_nat (n + 32) else c.

(** [s.lower()] *)
Fixpoint lower (s : string) : string :=
  match s with
  | EmptyString => EmptyString
  | String c s' => String (lower_ascii c) (lower s')
  end.

(** [s.startswith(p)] *)
Definition startswith (s p : string) : bool := String.prefix p s.

(** [needle in haystack] *)
Fixpoint contains (needle haystack : string) : bool :=
  String.prefix needle haystack ||
  match haystack with
  | EmptyString => false
  | String _ rest => contains needle rest
  end.

(** truthiness of a string: [if s:] *)
Definition nonempty (s : string) : bool :=
  match s with EmptyString => false | String _ _ => true end.

Definition len (s : string) : Z := Z.of_nat (String.length s).

(** iterating over a [str] yields its one-character strings *)
Fixpoint chars (s : string) : list string :=
  match s with
  | EmptyString => []
  | String c rest => String c EmptyString :: chars rest
  end.

End Str.

(** ** Outcomes and the state-and-exception monad *)

Inductive Result (A : Type) : Type :=
| Return (value : A)
| Raise (message : string).
Arguments Return {A} value.
Arguments Raise {A} message.

(** Externally visible actions, in the order they happen. *)
Inductive Event : Type :=
| EvGet (url : string)       (* driver.get(url) *)
| EvSleep (seconds : Z)      (* time.sleep(seconds) *)
| EvReinit.                  (* _reinitialize_browser() entered *)

#[global] Instance Event_eq_dec : EqDecision Event.
Proof. solve_decision. Defined.

(** A link of a parsed page: its [href] attribute and the rest of the
    element (text, other attributes), which takes part in the equality of
    two elements. *)
Record Tag : Type := mkTag { href : string; body : string }.

#[global] Instance Tag_eq_dec : EqDecision Tag.
Proof. solve_decision. Defined.

(** What the program reads off a search result page:
    [npi_links] is [soup.find_all('a', href=True, string=<10 digits>)] and
    [table_rows] gives, for every [tr] of [soup.find_all('tr')], its
    [row.find_all('a', href=True)]. *)
Record SearchPage : Type := mkPage {
  npi_links : list Tag;
  table_rows : list (list Tag)
}.

(** The fields [extract_profile_data] reads off a profile page. Only the
    columns the program itself looks at are named; the remaining columns
    are carried along in [pf_other]. *)
Record ProfileFields : Type := mkFields {
  pf_NPI : string;
  pf_Address : string;
  pf_other : list (string * string)
}.

(** The dictionary returned by [extract_profile_data]. *)
Record RawRecord : Type := mkRecord {
  URL : string;
  NPI : string;
  Address : string;
  other : list (string * string)
}.

#[global] Instance RawRecord_eq_dec : EqDecision RawRecord.
Proof. solve_decision. Defined.

(** The filter tuple of a query. An empty field is unconstrained. *)
Record QueryFilter : Type := mkFilter {
  qf_first : string;
  qf_last : string;
  qf_middle : string;
  qf_state : string
}.

#[global] Instance QueryFilter_eq_dec : EqDecision QueryFilter.
Proof. solve_decision. Defined.

(** The browser and the site behind it. *)
Class Browser (Env : Type) : Type := {
  (* self.driver.current_url *)
  drv_current_url : Env -> Result unit * Env;
  (* self.driver.get(url) *)
  drv_get : string -> Env -> Result unit * Env;
  (* self.driver.page_source of a search result page, parsed by
     BeautifulSoup and queried with find_all (search_profiles also dumps
     the page source to debug_search_page.html at this point) *)
  drv_search_page : Env -> Result SearchPage * Env;
  (* what extract_profile_data does after driver.get(url): waiting for the
     challenge, reading and parsing the page *)
  drv_profile : string -> Env -> Result ProfileFields * Env;
  (* quitting the old browser (failures ignored) and uc.Chrome(...) *)
  drv_restart : Env -> Result unit * Env;
  (* the environment after the given number of seconds *)
  drv_wait : Z -> Env -> Env
}.

(** moms.csv: the header line and the rows below it. A row is held by
    field name; the line of the file is its 25 values in the order of
    [fieldnames], which is how [csv.DictWriter] writes it. Read back under
    the header of the file, the line is this row when that header is
    [fieldnames]; what is proved about rows read back says so. *)
Record Ledger : Type := mkLedger {
  header : list string;
  rows : list RawRecord
}.

(** scraper_checkpoint.txt *)
Record Checkpoint : Type := mkCheckpoint {
  cp_last_processed : Z;
  cp_total : Z;
  cp_successful : Z;
  cp_failed : Z;
  cp_url : string
}.

Record World (Env : Type) : Type := mkWorld {
  env : Env;
  (* None: moms.csv is absent or has size 0 *)
  csv_file : option Ledger;
  checkpoint_file : option Checkpoint;
  trace : list Event
}.
Arguments mkWorld {Env}.
Arguments env {Env}.
Arguments csv_file {Env}.
Arguments checkpoint_file {Env}.
Arguments trace {Env}.

Definition M (Env A : Type) : Type := World Env -> Result A * World Env.

Definition ret {Env A} (a : A) : M Env A := fun w => (Return a, w).

Definition raise {Env A} (msg : string) : M Env A := fun w => (Raise msg, w).

Definition bind {Env A B} (m : M Env A) (k : A -> M Env B) : M Env B :=
  fun w =>
    match m w with
    | (Return a, w1) => k a w1
    | (Raise e, w1) => (Raise e, w1)
    end.

(** [try: m except Exception as e: handler(e)] *)
Definition try_except {Env A} (m : M Env A) (handler : string -> M Env A) : M Env A :=
  fun w =>
    match m w with
    | (Return a, w1) => (Return a, w1)
    | (Raise e, w1) => handler e w1
    end.

Declare Scope scraper_scope.
Delimit Scope scraper_scope with scraper.
Notation "x <- m ;; k" := (bind m (fun x => k))
  (at level 100, m at next level, right associativity) : scraper_scope.
Notation "m ;;; k" := (bind m (fun _ => k))
  (at level 100, right associativity) : scraper_scope.
Local Open Scope scraper_scope.

Definition with_env {Env} (w : World Env) (e : Env) : World Env :=
  mkWorld e (csv_file w) (checkpoint_file w) (trace w).

Definition log_event {Env} (ev : Event) (w : World Env) : World Env :=
  mkWorld (env w) (csv_file w) (checkpoint_file w) (trace w ++ [ev]).

(** Lifting of an environment call. *)
Definition env_call {Env A} (f : Env -> Result A * Env) : M Env A :=
  fun w => let (r, e) := f (env w) in (r, with_env w e).

(** ** [clean_data] *)

Module Re.

(** [\w] on ASCII text: letters, digits and the underscore. *)
Definition is_word_char (c : ascii) : bool :=
  let n := nat_of_ascii c in
  ((48 <=? n)%nat && (n <=? 57)%nat)
  || ((65 <=? n)%nat && (n <=? 90)%nat)
  || ((97 <=? n)%nat && (n <=? 122)%nat)
  || (n =? 95)%nat.

(** [\d] on ASCII text. *)
Definition is_digit (c : ascii) : bool :=
  let n := nat_of_ascii c in (48 <=? n)%nat && (n <=? 57)%nat.

Definition is_word (c : option ascii) : bool :=
  match c with
  | Some c => is_word_char c
  | None => false
  end.

(** [\b] between two neighbouring characters; [None] is the start or the
    end of the text. *)
Definition word_boundary (prev next : option ascii) : bool :=
  xorb (is_word prev) (is_word next).

Definition head (s : string) : option ascii :=
  match s with
  | EmptyString => None
  | String c _ => Some c
  end.

(** The literal [pat], ignoring case, at the start of [s]: the last
    character read and the rest of the text. *)
Fixpoint match_literal (pat : string) (prev : option ascii) (s : string)
  : option (option ascii * string) :=
  match pat with
  | EmptyString => Some (prev, s)
  | String p pat' =>
      match s with
      | EmptyString => None
      | String c s' =>
          if Ascii.eqb (Str.lower_ascii p) (Str.lower_ascii c)
          then match_literal pat' (Some c) s'
          else None
      end
  end.

(** [\b pat \b], ignoring case, at the start of [s], where [prev] is the
    character before [s]. *)
Definition match_word (pat : string) (prev : option ascii) (s : string) : option string :=
  if word_boundary prev (head s) then
    match match_literal pat prev s with
    | Some (last_read, rest) =>
        if word_boundary last_read (head rest) then Some rest else None
    | None => None
    end
  else None.

(** [re.sub(r'\b' + pat + r'\b', repl, s, flags=re.IGNORECASE)] for a
    literal, non-empty [pat]: the text is read from left to right; at a
    match [repl] is written and reading goes on behind the match ([skip]
    counts the characters of the match still to be passed over). *)
Fixpoint sub_from (pat repl : string) (skip : nat) (prev : option ascii) (s : string)
  : string :=
  match s with
  | EmptyString => EmptyString
  | String c rest =>
      match skip with
      | S k => sub_from pat repl k (Some c) rest
      | O =>
          match match_word pat prev s with
          | Some _ => repl +:+ sub_from pat repl (String.length pat - 1) (Some c) rest
          | None => String c (sub_from pat repl 0 (Some c) rest)
          end
      end
  end.

Definition sub_word (pat repl : string) (s : string) : string :=
  sub_from pat repl 0 None s.

(** [re.match(r'^\d{n}$', s)]: [$] also matches before a final newline. *)
Fixpoint match_digits (n : nat) (s : string) : bool :=
  match n, s with
  | O, EmptyString => true
  | O, String c EmptyString => Ascii.eqb c "010"%char
  | O, String _ (String _ _) => false
  | S _, EmptyString => false
  | S n', String c rest => is_digit c && match_digits n' rest
  end.

End Re.

(** [df.drop_duplicates(subset=['NPI'])]: the first row of every NPI is
    kept; [seen] holds the NPIs of the rows read so far. *)
Fixpoint drop_duplicates (seen : gset string) (df : list RawRecord) : list RawRecord :=
  match df with
  | [] => []
  | row :: rest =>
      if bool_decide (NPI row ∈ seen)
      then drop_duplicates seen rest
      else row :: drop_duplicates ({[ NPI row ]} ∪ seen) rest
  end.

(** The three replacements on an address, in the order of the source. *)
Definition standardize_address (a : string) : string :=
  Re.sub_word "BLVD" "Boulevard"
    (Re.sub_word "AVE" "Avenue"
       (Re.sub_word "ST" "Street" a)).

Definition with_address (row : RawRecord) (a : string) : RawRecord :=
  mkRecord (URL row) (NPI row) a (other row).

(** [df['NPI'].str.match(r'^\d{10}$', na=False)] on one row *)
Definition npi_valid (row : RawRecord) : bool := Re.match_digits 10 (NPI row).


(** The rows of the frame that [clean_data] returns. Every record carries
    the NPI and the Address column, as those of [extract_profile_data] do. *)
Definition clean_data (data : list RawRecord) : list RawRecord :=
  match data with
  | [] => []
  | _ :: _ =>
      let df := drop_duplicates ∅ data in
      let df := map (fun row => with_address row (standardize_address (Address row))) df in
      List.filter npi_valid df
  end.

(** ** The name block of [extract_profile_data]

    The text of the heading of a profile page is split into the name
    columns. The string methods are those of Python on ASCII text. *)

Module Py.

(** [c.isspace()]: tab to carriage return, the four separator controls
    and the space. *)
Definition is_space (c : ascii) : bool :=
  let n := nat_of_ascii c in
  ((9 <=? n)%nat && (n <=? 13)%nat) || ((28 <=? n)%nat && (n <=? 32)%nat).

(** [s.lstrip()] *)
Fixpoint lstrip (s : string) : string :=
  match s with
  | EmptyString => EmptyString
  | String c rest => if is_space c then lstrip rest else s
  end.

(** [s.rstrip()] *)
Fixpoint rstrip (s : string) : string :=
  match s with
  | EmptyString => EmptyString
  | String c rest =>
      match rstrip rest with
      | EmptyString => if is_space c then EmptyString else String c EmptyString
      | String c' rest' => String c (String c' rest')
      end
  end.

(** [s.strip()] *)
Definition strip (s : string) : string := rstrip (lstrip s).

(** [s.split()]: the runs of characters between whitespace; [cur] is the
    run that is being read. *)
Fixpoint split_from (cur : string) (s : string) : list string :=
  match s with
  | EmptyString => if Str.nonempty cur then [cur] else []
  | String c rest =>
      if is_space c
      then (if Str.nonempty cur then cur :: split_from EmptyString rest
            else split_from EmptyString rest)
      else split_from (cur +:+ String c EmptyString) rest
  end.

Definition split (s : string) : list string := split_from EmptyString s.

(** [s.split(',')[0]]: the text before the first comma. *)
Fixpoint before_comma (s : string) : string :=
  match s with
  | EmptyString => EmptyString
  | String c rest => if Ascii.eqb c ","%char then EmptyString else String c (before_comma rest)
  end.

(** [s.split(',', 1)[1]], when [',' in s]: the text behind the first
    comma. *)
Fixpoint after_comma (s : string) : option string :=
  match s with
  | EmptyString => None
  | String c rest => if Ascii.eqb c ","%char then Some rest else after_comma rest
  end.

(** [' '.join(parts)] *)
Fixpoint join (parts : list string) : string :=
  match parts with
  | [] => EmptyString
  | [p] => p
  | p :: rest => p +:+ " " +:+ join rest
  end.

End Py.

(** The five columns the name block fills; a column that is not set keeps
    the empty string of the dictionary. The first four are set nowhere
    else. [heading_credentials] is [data['Credentials']] as the name block
    leaves it; the table can replace it, see [credentials_column]. *)
Record NameFields : Type := mkName {
  full_name : string;
  first_name : string;
  last_name : string;
  middle_name : string;
  heading_credentials : string
}.

(** [name_parts[1:-1]] *)
Definition inner_parts (name_parts : list string) : list string :=
  removelast (tl name_parts).

(** [name_elem] is the text of the first [h1], else of the first [h2],
    when there is one. *)
Definition name_fields (name_elem : option string) : NameFields :=
  match name_elem with
  | None => mkName "" "" "" "" ""
  | Some text =>
      let full_name := Py.strip text in
      let name_parts := Py.split (Py.strip (Py.before_comma full_name)) in
      let first :=
        if (2 <=? length name_parts)%nat then nth 0 name_parts "" else "" in
      let last :=
        if (2 <=? length name_parts)%nat then List.last name_parts "" else "" in
      let middle :=
        if (2 <=? length name_parts)%nat && (2 <? length name_parts)%nat
        then Py.join (inner_parts name_parts) else "" in
      let credentials :=
        match Py.after_comma full_name with
        | Some rest => Py.strip rest
        | None => ""
        end in
      mkName full_name first last middle credentials
  end.

(** [data['Credentials']] as [extract_profile_data] returns it. After the
    name block the table is read: when there is a cell with the text
    Credentials and a cell behind it, the stripped text of that cell
    replaces what the heading gave, also when it is empty. [cred_value] is
    the text of that cell, [None] when the table has no such pair. *)
Definition credentials_column (name_elem cred_value : option string) : string :=
  match cred_value with
  | Some cell => Py.strip cell
  | None => heading_credentials (name_fields name_elem)
  end.

(** No character of the text is whitespace. *)
Fixpoint no_space (s : string) : bool :=
  match s with
  | EmptyString => true
  | String c rest => negb (Py.is_space c) && no_space rest
  end.

(** No character of the text is a comma. *)
Fixpoint no_comma (s : string) : bool :=
  match s with
  | EmptyString => true
  | String c rest => negb (Ascii.eqb c ","%char) && no_comma rest
  end.

(** A word: not empty, no whitespace. *)
Definition is_token (t : string) : Prop := t <> EmptyString /\ no_space t = true.

(** ** Notions used in the statements about addresses

    An address is read as words, runs of letters, digits and underscores,
    with one other character between two neighbouring words (a word may be
    empty, so that any text can be read this way). *)

(** All characters of [w] are word characters. *)
Fixpoint all_word (w : string) : bool :=
  match w with
  | EmptyString => true
  | String c w' => Re.is_word_char c && all_word w'
  end.

(** The text made of the word [w] followed by the separators and words of
    [rest]. *)
Fixpoint render (w : string) (rest : list (ascii * string)) : string :=
  match rest with
  | [] => w
  | (c, w') :: rest' => w +:+ String c (render w' rest')
  end.

(** Equality of two texts, ignoring case. *)
Definition eq_ci (a b : string) : bool := String.eqb (Str.lower a) (Str.lower b).

(** What becomes of a single word. *)
Definition expand_word (w : string) : string :=
  if eq_ci w "ST" then "Street"
  else if eq_ci w "AVE" then "Avenue"
  else if eq_ci w "BLVD" then "Boulevard"
  else w.

(** A well-formed list of separators and words. *)
Definition separated (rest : list (ascii * string)) : Prop :=
  Forall (fun cw => Re.is_word_char (fst cw) = false /\ all_word (snd cw) = true) rest.

Definition map_words (e : string -> string) (rest : list (ascii * string))
  : list (ascii * string) :=
  map (fun cw => (fst cw, e (snd cw))) rest.

(** The text behind a word: empty, or starting with a separator. *)
Definition ends_word (tail : string) : Prop := Re.is_word (Re.head tail) = false.

(** Reading on behind a word, for the pattern [pat] and its replacement. *)
Definition sub_tail (pat repl : string) (tail : string) : string :=
  match tail with
  | EmptyString => EmptyString
  | String c t => String c (Re.sub_from pat repl 0 (Some c) t)
  end.

(** What one replacement makes of a single word. *)
Definition expand_one (pat repl : string) (w : string) : string :=
  if eq_ci w pat then repl else w.

(** Unfolding of [+:+] on a text that starts with a known character. *)
Ltac app_step :=
  repeat match goal with
         | |- context [String ?a ?w +:+ ?t] =>
             change (String a w +:+ t) with (String a (w +:+ t))
         | |- context [EmptyString +:+ ?t] =>
             change (EmptyString +:+ t) with t
         end.

Section Scraper.

Context {Env : Type} {browser : Browser Env}.

(** library functions that are used as they are *)
Variable urlencode : list (string * string) -> string.
(** what pandas reads as a missing value *)
Variable isna : string -> bool.
(** [self.max_retries] *)
Variable max_retries : Z.

Local Abbreviation M := (M Env).
Local Abbreviation World := (World Env).

Definition driver_current_url : M unit := env_call drv_current_url.

Definition driver_get (url : string) : M unit :=
  fun w => env_call (drv_get url) (log_event (EvGet url) w).

Definition driver_search_page : M SearchPage := env_call drv_search_page.

Definition time_sleep (seconds : Z) : M unit :=
  fun w => (Return tt, with_env (log_event (EvSleep seconds) w)
                                (drv_wait seconds (env w))).

(** [_reinitialize_browser] *)
Definition _reinitialize_browser : M unit :=
  fun w => (env_call drv_restart ;;; time_sleep 3) (log_event EvReinit w).

(** ** [_retry_operation] *)

Definition is_session_error (error_msg : string) : bool :=
  Str.contains "invalid session id" (Str.lower error_msg)
  || Str.contains "disconnected" (Str.lower error_msg).

(** The body of [for attempt in range(self.max_retries)], over the
    attempts still to be made. Falling out of the loop returns [None]. *)
Fixpoint retry_loop {A} (operation : M A) (attempts : list Z) : M (option A) :=
  match attempts with
  | [] => ret None
  | attempt :: rest =>
      fun w =>
        match operation w with
        | (Return v, w1) => (Return (Some v), w1)
        | (Raise e, w1) =>
            let backoff_or_raise :=
              if attempt <? max_retries - 1
              then (time_sleep (2 ^ attempt) ;;; retry_loop operation rest) w1
              else (Raise e, w1) in
            if is_session_error e then
              if attempt <? max_retries - 1
              then (_reinitialize_browser ;;; retry_loop operation rest) w1
              else backoff_or_raise
            else backoff_or_raise
        end
  end.

Definition _retry_operation {A} (operation : M A) : M (option A) :=
  retry_loop operation (seqZ 0 max_retries).

(** ** [search_profiles] *)

Definition BASE_URL : string := "https://npidb.org/npi-lookup/".

Definition ALPHABET : string := "ABCDEFGHIJKLMNOPQRSTUVWXYZ".

Definition STATES : list string :=
  [ "AL"; "AK"; "AZ"; "AR"; "CA"; "CO"; "CT"; "DE"; "FL"; "GA";
    "HI"; "ID"; "IL"; "IN"; "IA"; "KS"; "KY"; "LA"; "ME"; "MD";
    "MA"; "MI"; "MN"; "MS"; "MO"; "MT"; "NE"; "NV"; "NH"; "NJ";
    "NM"; "NY"; "NC"; "ND"; "OH"; "OK"; "OR"; "PA"; "RI"; "SC";
    "SD"; "TN"; "TX"; "UT"; "VT"; "VA"; "WA"; "WV"; "WI"; "WY" ].

(** The display cap of the directory. *)
Definition CAP : Z := 30.

Definition search_params (first_initial last_initial middle_initial state : string)
  : list (string * string) :=
  (if Str.nonempty first_initial then [("fname", first_initial)] else [])
  ++ (if Str.nonempty last_initial then [("lname", last_initial)] else [])
  ++ (if Str.nonempty middle_initial then [("mname", middle_initial)] else [])
  ++ (if Str.nonempty state then [("state", Str.lower state)] else []).

Definition search_url (params : list (string * string)) : string :=
  match params with
  | [] => BASE_URL
  | _ :: _ => BASE_URL +:+ "?" +:+ urlencode params
  end.

(** [href and (href.startswith('/') or 'npidb.org' in href)] *)
Definition looks_like_profile (h : string) : bool :=
  Str.nonempty h && (Str.startswith h "/" || Str.contains "npidb.org" h).

(** The inner loop over the links of one table row. *)
Definition add_row_links (results : list Tag) (links : list Tag) : list Tag :=
  fold_left
    (fun results link =>
       if looks_like_profile (href link) && negb (bool_decide (link ∈ results))
       then results ++ [link]
       else results)
    links results.

(** [results] after the loop over the table rows. *)
Definition collect_links (page : SearchPage) : list Tag :=
  fold_left add_row_links (table_rows page) (npi_links page).

(** Removal of duplicates based on [href]; [seen] is [seen_hrefs]. *)
Fixpoint unique_by_href (seen : gset string) (results : list Tag) : list Tag :=
  match results with
  | [] => []
  | link :: rest =>
      if Str.nonempty (href link) && negb (bool_decide (href link ∈ seen))
      then link :: unique_by_href ({[ href link ]} ∪ seen) rest
      else unique_by_href seen rest
  end.

Definition absolute_url (h : string) : string :=
  if Str.startswith h "http" then h else "https://npidb.org" +:+ h.

(** The loop that turns links into URLs. *)
Definition extract_urls (results : list Tag) : list string :=
  flat_map
    (fun result => if Str.nonempty (href result) then [absolute_url (href result)] else [])
    results.

(** The URLs the program finds on a search result page. *)
Definition page_urls (page : SearchPage) : list string :=
  extract_urls (unique_by_href ∅ (collect_links page)).

(** [None] is the marker for more than 30 results. *)
Definition search_profiles (first_initial last_initial middle_initial state : string)
  : M (option (list string)) :=
  driver_current_url ;;;
  let params := search_params first_initial last_initial middle_initial state in
  let url := search_url params in
  driver_get url ;;;
  time_sleep 5 ;;;
  page <- driver_search_page ;;
  let urls := page_urls page in
  if CAP <? Z.of_nat (length urls) then ret None else ret (Some urls).

(** ** [recursive_search] *)

(** [all_urls = start; for x in xs: all_urls.extend(call(x))] *)
Fixpoint extend_each {X} (all_urls : list string) (xs : list X)
    (call : X -> M (list string)) : M (list string) :=
  match xs with
  | [] => ret all_urls
  | x :: rest => urls <- call x ;; extend_each (all_urls ++ urls) rest call
  end.

(** The last branch: one direct query, the first 30 links with a 10-digit
    text, any exception logged and dropped. *)
Definition collect_first_30 (first last middle state : string) : M (list string) :=
  try_except
    (let params :=
       [("fname", first); ("lname", last); ("state", Str.lower state)]
       ++ (if Str.nonempty middle then [("mname", middle)] else []) in
     driver_get (BASE_URL +:+ "?" +:+ urlencode params) ;;;
     time_sleep 5 ;;;
     page <- driver_search_page ;;
     ret (extract_urls (take 30 (npi_links page))))
    (fun _ => ret []).

(** The body of [recursive_search]; [self] stands for the recursive calls. *)
Definition recursive_search_body
    (self : string -> string -> string -> string -> M (list string))
    (first last middle state : string) : M (list string) :=
  urls <- _retry_operation (search_profiles first last middle state) ;;
  match urls with
  | Some (Some urls) =>
      if Z.of_nat (length urls) <=? CAP then ret urls else ret []
  | _ =>
      if negb (Str.nonempty last) then
        extend_each [] (Str.chars ALPHABET) (fun l => self first l "" "")
      else if negb (Str.nonempty middle) then
        extend_each [] (Str.chars ALPHABET) (fun m => self first last m "")
      else if negb (Str.nonempty state) then
        extend_each [] STATES (fun s => self first last middle s)
      else if Str.len first =? 1 then
        extend_each [] (Str.chars ALPHABET) (fun f2 => self (first +:+ f2) last middle state)
      else if Str.len last =? 1 then
        extend_each [] (Str.chars ALPHABET) (fun l2 => self first (last +:+ l2) middle state)
      else if Str.len middle =? 1 then
        extend_each [] (Str.chars ALPHABET) (fun m2 => self first last (middle +:+ m2) state)
      else
        collect_first_30 first last middle state
  end.

(** The nesting of [recursive_search] is bounded: every call narrows the
    filter one step along last, middle, state, second character of first,
    of last, of middle. [recursive_search_upto n] allows [n] nested calls;
    seven are always enough ([recursive_search_unfold] below), so that the
    first clause is never reached. *)
Fixpoint recursive_search_upto (n : nat)
  : string -> string -> string -> string -> M (list string) :=
  match n with
  | O => fun _ _ _ _ => raise "RecursionError"
  | S n' => recursive_search_body (recursive_search_upto n')
  end.

Definition recursive_search : string -> string -> string -> string -> M (list string) :=
  recursive_search_upto 7.

(** ** [scrape_search_results] *)

(** [params] holds the optional keys first, last, middle and state; a
    missing key reads as the empty string. *)
Definition scrape_search_results (params : QueryFilter) : M (list string) :=
  let start_first := qf_first params in
  let start_last := qf_last params in
  let start_middle := qf_middle params in
  let start_state := qf_state params in
  if Str.nonempty start_first then
    recursive_search start_first start_last start_middle start_state
  else
    all_urls <- extend_each [] (Str.chars ALPHABET)
                  (fun f => recursive_search f start_last start_middle start_state) ;;
    ret (elements (list_to_set all_urls : gset string)).

(** ** [extract_profile_data] and [scrape_all] *)

(** The page is loaded and read; [data['URL']] is the URL asked for. The
    waits of this function are part of [drv_profile]. *)
Definition extract_profile_data (url : string) : M RawRecord :=
  driver_get url ;;;
  fields <- env_call (drv_profile url) ;;
  ret (mkRecord url (pf_NPI fields) (pf_Address fields) (pf_other fields)).

Definition fieldnames : list string :=
  [ "URL"; "NPI"; "Full Name"; "First Name"; "Last Name"; "Middle Name"; "Credentials";
    "Address"; "City"; "State"; "ZIP"; "Phone"; "Fax"; "Website"; "Status";
    "Enumeration Date"; "Last Updated"; "Sole Proprietor"; "Entity Type"; "Specialty";
    "Taxonomy Code"; "Specialty Code"; "Provider Type"; "Gender"; "Hospital Affiliation" ].

(** [set(existing_df['URL'].dropna().tolist())], empty when the file has
    no URL column. The file is taken to be readable. *)
Definition read_scraped_urls (file : option Ledger) : gset string :=
  match file with
  | Some ledger =>
      if bool_decide ("URL" ∈ header ledger)
      then list_to_set (List.filter (fun u => negb (isna u)) (map URL (rows ledger)))
      else ∅
  | None => ∅
  end.

Definition with_csv (w : World) (file : option Ledger) : World :=
  mkWorld (env w) file (checkpoint_file w) (trace w).

Definition with_checkpoint (w : World) (cp : Checkpoint) : World :=
  mkWorld (env w) (csv_file w) (Some cp) (trace w).

(** The header is written when the file is absent or empty. *)
Definition init_csv : M unit :=
  fun w =>
    match csv_file w with
    | None => (Return tt, with_csv w (Some (mkLedger fieldnames [])))
    | Some _ => (Return tt, w)
    end.

(** One row appended, flushed and synced: the values of [data] in the
    order of [fieldnames], whatever the header of the file is. The file is
    there by then; the first clause is what append mode does otherwise. *)
Definition append_row (data : RawRecord) : M unit :=
  fun w =>
    match csv_file w with
    | None => (Return tt, with_csv w (Some (mkLedger [] [data])))
    | Some ledger =>
        (Return tt, with_csv w (Some (mkLedger (header ledger) (rows ledger ++ [data]))))
    end.

Definition write_checkpoint (cp : Checkpoint) : M unit :=
  fun w => (Return tt, with_checkpoint w cp).

(** The variables the loop of [scrape_all] updates. An entry [None] of
    [all_data] is the [None] that [_retry_operation] returns when it makes no
    attempt. *)
Record LoopState : Type := mkLoop {
  all_data : list (option RawRecord);
  successful_count : Z;
  failed_count : Z
}.

(** One round of the loop, with its [try] and [except]. *)
Definition process_url (total : Z) (st : LoopState) (idx : Z) (url : string)
  : M LoopState :=
  fun w =>
    match _retry_operation (extract_profile_data url) w with
    | (Raise _, w1) =>
        (Return (mkLoop (all_data st) (successful_count st) (failed_count st + 1)), w1)
    | (Return None, w1) =>
        (* all_data.append(None), then writer.writerow(None) raises *)
        (Return (mkLoop (all_data st ++ [None]) (successful_count st) (failed_count st + 1)),
         w1)
    | (Return (Some data), w1) =>
        let successful := successful_count st + 1 in
        (append_row data ;;;
         (if successful mod 10 =? 0
          then write_checkpoint (mkCheckpoint idx total successful (failed_count st) url)
          else ret tt) ;;;
         ret (mkLoop (all_data st ++ [Some data]) successful (failed_count st))) w1
    end.

(** [for idx, url in enumerate(urls_to_scrape, idx)] *)
Fixpoint scrape_loop (total : Z) (st : LoopState) (idx : Z) (urls : list string)
  : M LoopState :=
  match urls with
  | [] => ret st
  | url :: rest =>
      st1 <- process_url total st idx url ;;
      scrape_loop total st1 (idx + 1) rest
  end.

(** [None] when [all_data] has a [None] entry, which gives a frame
    without an NPI column that is not modelled. *)
Definition all_records (data : list (option RawRecord)) : option (list RawRecord) :=
  mapM id data.

Definition urls_to_scrape_of (all_urls : list string) (scraped_urls : gset string)
  : list string :=
  List.filter (fun url => negb (bool_decide (url ∈ scraped_urls))) all_urls.

Definition scrape_all (params : QueryFilter) : M (option (list RawRecord)) :=
  all_urls <- scrape_search_results params ;;
  fun w =>
    let scraped_urls := read_scraped_urls (csv_file w) in
    (init_csv ;;;
     let urls_to_scrape := urls_to_scrape_of all_urls scraped_urls in
     st <- scrape_loop (Z.of_nat (length urls_to_scrape)) (mkLoop [] 0 0) 1 urls_to_scrape ;;
     ret (clean_data <$> all_records (all_data st))) w.

(** ** Notions used in the statements *)

(** The runner when it is about to make the attempt with the given index. *)
Definition retry_at {A} (operation : M A) (attempt : Z) : M (option A) :=
  retry_loop operation (seqZ attempt (max_retries - attempt)).

(** How often the browser has been restarted. *)
Definition recoveries (w : World) : nat :=
  count_occ Event_eq_dec (trace w) EvReinit.

(** The URLs the browser was sent to, oldest first. *)
Definition visited (w : World) : list string :=
  flat_map (fun ev => match ev with EvGet url => [url] | _ => [] end) (trace w).

Definition rows_of (file : option Ledger) : list RawRecord :=
  match file with
  | Some ledger => rows ledger
  | None => []
  end.

(** The probe of a filter, through the runner. *)
Definition probe (f : QueryFilter) : M (option (option (list string))) :=
  _retry_operation (search_profiles (qf_first f) (qf_last f) (qf_middle f) (qf_state f)).

(** The probe says that the filter has more matches than can be shown:
    [urls is None] in [recursive_search]. *)
Definition over_limit (r : option (option (list string))) : Prop :=
  r = None \/ r = Some None.

Definition resolve (f : QueryFilter) : M (list string) :=
  recursive_search (qf_first f) (qf_last f) (qf_middle f) (qf_state f).

(** The filters are resolved one after the other and the results are
    appended. *)
Definition resolve_all (children : list QueryFilter) : M (list string) :=
  extend_each [] children resolve.

(** The child filters of the loops of [recursive_search], in the order of
    the calls; [None] in the last branch, which has no children. *)
Definition children_of (f : QueryFilter) : option (list QueryFilter) :=
  let (first, last, middle, state) := f in
  if negb (Str.nonempty last) then
    Some (map (fun l => mkFilter first l "" "") (Str.chars ALPHABET))
  else if negb (Str.nonempty middle) then
    Some (map (fun m => mkFilter first last m "") (Str.chars ALPHABET))
  else if negb (Str.nonempty state) then
    Some (map (fun s => mkFilter first last middle s) STATES)
  else if Str.len first =? 1 then
    Some (map (fun f2 => mkFilter (first +:+ f2) last middle state) (Str.chars ALPHABET))
  else if Str.len last =? 1 then
    Some (map (fun l2 => mkFilter first (last +:+ l2) middle state) (Str.chars ALPHABET))
  else if Str.len middle =? 1 then
    Some (map (fun m2 => mkFilter first last (middle +:+ m2) state) (Str.chars ALPHABET))
  else None.

(** The number of narrowing steps still ahead of a filter. *)
Definition depth (first last middle state : string) : nat :=
  if negb (Str.nonempty last) then 6
  else if negb (Str.nonempty middle) then 5
  else if negb (Str.nonempty state) then 4
  else if Str.len first =? 1 then 3
  else if Str.len last =? 1 then 2
  else if Str.len middle =? 1 then 1
  else 0%nat.

(** The children are resolved in turn, each one returning its URLs. *)
Inductive resolved_in_turn : list QueryFilter -> World -> list (list string) -> World -> Prop :=
| rit_nil w : resolved_in_turn [] w [] w
| rit_cons c cs w urls w1 rest w2 :
    resolve c w = (Return urls, w1) ->
    resolved_in_turn cs w1 rest w2 ->
    resolved_in_turn (c :: cs) w (urls :: rest) w2.

(** What [recursive_search] does once the probe has reported too many
    matches, in terms of the child filters. *)
Definition narrow
    (self : string -> string -> string -> string -> M (list string))
    (f : QueryFilter) : M (list string) :=
  match children_of f with
  | Some cs =>
      extend_each [] cs
        (fun c => self (qf_first c) (qf_last c) (qf_middle c) (qf_state c))
  | None => collect_first_30 (qf_first f) (qf_last f) (qf_middle f) (qf_state f)
  end.

(** The part of [search_profiles] that talks to the browser. *)
Definition fetch_search_page (first_initial last_initial middle_initial state : string)
  : M SearchPage :=
  driver_current_url ;;;
  driver_get (search_url (search_params first_initial last_initial middle_initial state)) ;;;
  time_sleep 5 ;;;
  driver_search_page.

(** The URL of the direct query of the last branch. *)
Definition direct_url (first last middle state : string) : string :=
  BASE_URL +:+ "?"
  +:+ urlencode ([("fname", first); ("lname", last); ("state", Str.lower state)]
                 ++ (if Str.nonempty middle then [("mname", middle)] else [])).

(** A computation that leaves moms.csv as it is. *)
Definition keeps_csv {A} (m : M A) : Prop :=
  forall w, csv_file (snd (m w)) = csv_file w.

(** [seen_hrefs] after the loop that removes duplicates has read
    [results]. *)
Fixpoint seen_after (seen : gset string) (results : list Tag) : gset string :=
  match results with
  | [] => seen
  | link :: rest =>
      if Str.nonempty (href link) && negb (bool_decide (href link ∈ seen))
      then seen_after ({[ href link ]} ∪ seen) rest
      else seen_after seen rest
  end.

(** The links of a page that the two collecting steps consider, in the
    order they are read: the links with a 10-digit text, then the links of
    the table rows that look like profile links. *)
Definition candidate_links (page : SearchPage) : list Tag :=
  npi_links page
  ++ List.filter (fun link => looks_like_profile (href link)) (concat (table_rows page)).

(** The sleeps so far, in seconds and in order, and their sum. *)
Definition sleeps (w : World) : list Z :=
  flat_map (fun ev => match ev with EvSleep n => [n] | _ => [] end) (trace w).

Definition slept (w : World) : Z := fold_right Z.add 0 (sleeps w).

End Scraper.

(** ** A simulated directory

    A site given by a table of result pages and profile pages, with a
    script of failures for the coming navigations. It is used to run the
    program on concrete inputs. *)

Module Sim.

Record Site : Type := mkSite {
  (* the outcome of the coming calls of driver.get: an error message or None *)
  script : list (option string);
  (* the URL the browser is at *)
  location : string;
  pages : string -> SearchPage;
  profiles : string -> ProfileFields
}.

Definition navigate (url : string) (s : Site) : Result unit * Site :=
  match script s with
  | Some e :: rest => (Raise e, mkSite rest (location s) (pages s) (profiles s))
  | None :: rest => (Return tt, mkSite rest url (pages s) (profiles s))
  | [] => (Return tt, mkSite [] url (pages s) (profiles s))
  end.

#[global] Instance site_browser : Browser Site := {
  drv_current_url := fun s => (Return tt, s);
  drv_get := navigate;
  drv_search_page := fun s => (Return (pages s (location s)), s);
  drv_profile := fun url s => (Return (profiles s url), s);
  drv_restart := fun s => (Return tt, s);
  drv_wait := fun _ s => s
}.

(** [urlencode] on keys and values that need no quoting. *)
Fixpoint urlencode (params : list (string * string)) : string :=
  match params with
  | [] => ""
  | [(k, v)] => k +:+ "=" +:+ v
  | (k, v) :: rest => k +:+ "=" +:+ v +:+ "&" +:+ urlencode rest
  end.

Definition isna (s : string) : bool := negb (Str.nonempty s).

Definition start (s : Site) (file : option Ledger) : World Site :=
  mkWorld s file None [].

Definition link (h : string) : Tag := mkTag h "1234567890".

(** A page with one row per given href. *)
Definition page_of (hrefs : list string) : SearchPage :=
  mkPage (map link hrefs) (map (fun h => [link h]) hrefs).

(** [n] different hrefs. *)
Definition many (n : nat) : list string :=
  map (fun k => "/npi/" +:+ string_of_list_ascii (repeat "x"%char (S k))) (seq 0 n).

Definition no_profile (url : string) : ProfileFields := mkFields "" "" [].

(** The first initial A has 31 matches; the same profile is listed under
    the last initials A and B. *)
Definition overlapping_pages (url : string) : SearchPage :=
  if String.eqb url "https://npidb.org/npi-lookup/?fname=A" then page_of (many 31)
  else if String.eqb url "https://npidb.org/npi-lookup/?fname=A&lname=A" then page_of ["/npi/1"]
  else if String.eqb url "https://npidb.org/npi-lookup/?fname=A&lname=B" then page_of ["/npi/1"]
  else page_of [].

Definition overlapping : Site := mkSite [] "" overlapping_pages no_profile.

Definition profile_url : string := "https://npidb.org/npi/1".

(** The first initial A in the region CA has 31 matches. *)
Definition regional_pages (url : string) : SearchPage :=
  if String.eqb url "https://npidb.org/npi-lookup/?fname=A&state=ca" then page_of (many 31)
  else page_of [].

Definition regional : Site := mkSite [] "" regional_pages no_profile.

(** Four one-letter fields with 31 matches; of the first initials AA to AZ
    only AB has a match. *)
Definition dense_pages (url : string) : SearchPage :=
  if String.eqb url "https://npidb.org/npi-lookup/?fname=A&lname=B&mname=C&state=ca"
  then page_of (many 31)
  else if String.eqb url "https://npidb.org/npi-lookup/?fname=AB&lname=B&mname=C&state=ca"
  then page_of ["/npi/5"]
  else page_of [].

Definition dense : Site := mkSite [] "" dense_pages no_profile.

(** Every query has 31 matches. *)
Definition crowded : Site := mkSite [] "" (fun _ => page_of (many 31)) no_profile.

(** As [crowded]; the second navigation fails. *)
Definition broken : Site :=
  mkSite [None; Some "timeout"] "" (fun _ => page_of (many 31)) no_profile.

(** The first initial Q has one match. *)
Definition quiet_pages (url : string) : SearchPage :=
  if String.eqb url "https://npidb.org/npi-lookup/?fname=Q" then page_of ["/npi/7"]
  else page_of [].

Definition quiet : Site := mkSite [] "" quiet_pages no_profile.

Definition a_profile (url : string) : ProfileFields :=
  mkFields "1234567890" "123 MAIN ST" [].

(** The session is lost at the first two navigations. *)
Definition flaky : Site :=
  mkSite [Some "Message: invalid session id";
          Some "disconnected: not connected to DevTools"]
         "" (fun _ => page_of []) a_profile.

(** moms.csv after an earlier run that saved [profile_url]. *)
Definition earlier_output : Ledger :=
  mkLedger
    [ "URL"; "NPI"; "Full Name"; "First Name"; "Last Name"; "Middle Name"; "Credentials";
      "Address"; "City"; "State"; "ZIP"; "Phone"; "Fax"; "Website"; "Status";
      "Enumeration Date"; "Last Updated"; "Sole Proprietor"; "Entity Type"; "Specialty";
      "Taxonomy Code"; "Specialty Code"; "Provider Type"; "Gender"; "Hospital Affiliation" ]
    [ mkRecord profile_url "" "" [] ].

(** moms.csv with the header of the program and the row of a profile
    that no search lists. *)
Definition other_output : Ledger :=
  mkLedger fieldnames [ mkRecord "https://npidb.org/npi/9" "" "" [] ].

(** Three rows, the first two with the same NPI. *)
Definition three_rows : list RawRecord :=
  [ mkRecord "https://npidb.org/npi/1" "1234567890" "1 A ST" [];
    mkRecord "https://npidb.org/npi/2" "1234567890" "2 B AVE" [];
    mkRecord "https://npidb.org/npi/3" "12" "3 C BLVD" [] ].

(** A browser without a connection: every navigation fails. *)
Inductive Offline : Type := offline.

Definition offline_browser : Browser Offline := {|
  drv_current_url := fun s => (Return tt, s);
  drv_get := fun _ s => (Raise "timeout", s);
  drv_search_page := fun s => (Return (page_of []), s);
  drv_profile := fun url s => (Return (no_profile url), s);
  drv_restart := fun s => (Return tt, s);
  drv_wait := fun _ s => s
|}.

Definition unplugged : World Offline := mkWorld offline None None [].

End Sim.

(** * Properties *)

Section Properties.

Context {Env : Type} {browser : Browser Env}.
Variable urlencode : list (string * string) -> string.
Variable isna : string -> bool.
Variable max_retries : Z.

Local Abbreviation M := (M Env).
Local Abbreviation World := (World Env).

(** ** The runner *)

Lemma bind_unit_step {A} (m : M unit) (k : M A) (w w1 : World) :
  m w = (Return tt, w1) -> (m ;;; k) w = k w1.
Proof. intros H. unfold bind. now rewrite H. Qed.

Lemma time_sleep_run (n : Z) (w : World) :
  exists w1, time_sleep n w = (Return tt, w1)
             /\ trace w1 = trace w ++ [EvSleep n]
             /\ csv_file w1 = csv_file w.
Proof. eexists. split; [reflexivity|]. split; reflexivity. Qed.

Lemma retry_at_unfold {A} (operation : M A) (attempt : Z) :
  attempt < max_retries ->
  retry_at max_retries operation attempt
  = retry_loop max_retries operation
      (attempt :: seqZ (attempt + 1) (max_retries - (attempt + 1))).
Proof.
  intros Hlt. unfold retry_at.
  rewrite seqZ_cons by lia.
  do 3 f_equal; lia.
Qed.

Lemma retry_at_exhausted {A} (operation : M A) (attempt : Z) (w : World) :
  max_retries <= attempt ->
  retry_at max_retries operation attempt w = (Return None, w).
Proof.
  intros Hge. unfold retry_at.
  replace (seqZ attempt (max_retries - attempt)) with (@nil Z); [reflexivity|].
  symmetry. apply seqZ_nil. lia.
Qed.

Lemma retry_at_success {A} (operation : M A) (attempt : Z) (w w1 : World) (v : A) :
  attempt < max_retries ->
  operation w = (Return v, w1) ->
  retry_at max_retries operation attempt w = (Return (Some v), w1).
Proof.
  intros Hlt Hop. rewrite retry_at_unfold by assumption.
  simpl. now rewrite Hop.
Qed.

Lemma retry_at_transient {A} (operation : M A) (attempt : Z) (w w1 : World) (e : string) :
  attempt < max_retries - 1 ->
  operation w = (Raise e, w1) ->
  is_session_error e = false ->
  retry_at max_retries operation attempt w
  = (time_sleep (2 ^ attempt) ;;; retry_at max_retries operation (attempt + 1)) w1.
Proof.
  intros Hlt Hop Hs. rewrite retry_at_unfold by lia.
  simpl. rewrite Hop, Hs.
  destruct (Z.ltb_spec attempt (max_retries - 1)); [reflexivity | lia].
Qed.

Lemma retry_at_session {A} (operation : M A) (attempt : Z) (w w1 : World) (e : string) :
  attempt < max_retries - 1 ->
  operation w = (Raise e, w1) ->
  is_session_error e = true ->
  retry_at max_retries operation attempt w
  = (_reinitialize_browser ;;; retry_at max_retries operation (attempt + 1)) w1.
Proof.
  intros Hlt Hop Hs. rewrite retry_at_unfold by lia.
  simpl. rewrite Hop, Hs.
  destruct (Z.ltb_spec attempt (max_retries - 1)); [reflexivity | lia].
Qed.

Lemma retry_at_final {A} (operation : M A) (attempt : Z) (w w1 : World) (e : string) :
  attempt = max_retries - 1 ->
  operation w = (Raise e, w1) ->
  retry_at max_retries operation attempt w = (Raise e, w1).
Proof.
  intros Heq Hop. rewrite retry_at_unfold by lia.
  simpl. rewrite Hop.
  destruct (Z.ltb_spec attempt (max_retries - 1)); [lia|].
  now destruct (is_session_error e).
Qed.

Lemma retry_operation_at_0 {A} (operation : M A) :
  _retry_operation max_retries operation = retry_at max_retries operation 0.
Proof. unfold _retry_operation, retry_at. now rewrite Z.sub_0_r. Qed.

Lemma reinitialize_run (w : World) :
  (exists w1, _reinitialize_browser w = (Return tt, w1)
              /\ trace w1 = trace w ++ [EvReinit; EvSleep 3])
  \/ (exists e w1, _reinitialize_browser w = (Raise e, w1)
                   /\ trace w1 = trace w ++ [EvReinit]).
Proof.
  unfold _reinitialize_browser, bind, env_call. cbn.
  destruct (drv_restart (env w)) as [[[]|e] e1].
  - left. eexists. split; [reflexivity|]. cbn. now rewrite <- app_assoc.
  - right. do 2 eexists. split; reflexivity.
Qed.

Lemma recoveries_app (w w1 : World) (evs : list Event) :
  trace w1 = trace w ++ evs ->
  recoveries w1 = (recoveries w + count_occ Event_eq_dec evs EvReinit)%nat.
Proof. intros H. unfold recoveries. rewrite H. apply count_occ_app. Qed.

Lemma reinitialize_recoveries (w w1 : World) :
  _reinitialize_browser w = (Return tt, w1) ->
  recoveries w1 = S (recoveries w).
Proof.
  intros H. destruct (reinitialize_run w) as [(w2 & H2 & Ht) | (e & w2 & H2 & _)].
  - rewrite H in H2. injection H2 as <-.
    rewrite (recoveries_app w w1 _ Ht). cbn. lia.
  - rewrite H in H2. discriminate.
Qed.

Lemma retry_session_twice_then_success {A} (operation : M A)
    (w0 w1 w1' w2 w2' w3 : World) (e1 e2 : string) (v : A) :
  max_retries = 3 ->
  operation w0 = (Raise e1, w1) -> is_session_error e1 = true ->
  _reinitialize_browser w1 = (Return tt, w1') ->
  operation w1' = (Raise e2, w2) -> is_session_error e2 = true ->
  _reinitialize_browser w2 = (Return tt, w2') ->
  operation w2' = (Return v, w3) ->
  _retry_operation max_retries operation w0 = (Return (Some v), w3).
Proof.
  intros Hmax H1 S1 R1 H2 S2 R2 H3.
  rewrite retry_operation_at_0.
  rewrite (retry_at_session _ 0 w0 w1 e1) by (assumption || lia).
  rewrite (bind_unit_step _ _ _ _ R1). cbn.
  rewrite (retry_at_session _ 1 w1' w2 e2) by (assumption || lia).
  rewrite (bind_unit_step _ _ _ _ R2). cbn.
  apply retry_at_success; [lia | assumption].
Qed.

(** C5. The runner makes the attempts 0, 1, ..., [max_retries - 1].
    After a failed attempt that is not a session loss it sleeps
    [2 ^ attempt] and goes on with the next attempt, if one remains;
    after a session loss it restarts the browser and goes on with the next
    attempt, if one remains (when the restart itself fails, that error
    leaves the runner); the error of the last attempt is raised to the
    caller; a successful attempt returns its result at once. With three
    attempts and an operation that loses the session twice and then
    succeeds, the browser is restarted exactly twice and the result of the
    operation is returned. *)
Theorem C5_retry_policy (A : Type) (operation : M A) :
  _retry_operation max_retries operation = retry_at max_retries operation 0
  /\ (forall attempt w e w1,
        0 <= attempt ->
        operation w = (Raise e, w1) ->
        (attempt < max_retries - 1 -> is_session_error e = false ->
         exists w2,
           time_sleep (2 ^ attempt) w1 = (Return tt, w2)
           /\ trace w2 = trace w1 ++ [EvSleep (2 ^ attempt)]
           /\ retry_at max_retries operation attempt w
              = retry_at max_retries operation (attempt + 1) w2)
        /\ (attempt < max_retries - 1 -> is_session_error e = true ->
            (forall w2,
                _reinitialize_browser w1 = (Return tt, w2) ->
                recoveries w2 = S (recoveries w1)
                /\ retry_at max_retries operation attempt w
                   = retry_at max_retries operation (attempt + 1) w2)
            /\ (forall e' w2,
                   _reinitialize_browser w1 = (Raise e', w2) ->
                   retry_at max_retries operation attempt w = (Raise e', w2)))
        /\ (attempt = max_retries - 1 ->
            retry_at max_retries operation attempt w = (Raise e, w1)))
  /\ (forall attempt w v w1,
        attempt < max_retries ->
        operation w = (Return v, w1) ->
        retry_at max_retries operation attempt w = (Return (Some v), w1))
  /\ (max_retries = 3 ->
      forall w0 e1 w1 w1' e2 w2 w2' v w3,
        (forall w, recoveries (snd (operation w)) = recoveries w) ->
        operation w0 = (Raise e1, w1) -> is_session_error e1 = true ->
        _reinitialize_browser w1 = (Return tt, w1') ->
        operation w1' = (Raise e2, w2) -> is_session_error e2 = true ->
        _reinitialize_browser w2 = (Return tt, w2') ->
        operation w2' = (Return v, w3) ->
        _retry_operation max_retries operation w0 = (Return (Some v), w3)
        /\ recoveries w3 = (recoveries w0 + 2)%nat).
Proof.
  split; [apply retry_operation_at_0|].
  split; [|split].
  - intros attempt w e w1 Hpos Hop. split; [|split].
    + intros Hlt Hs.
      destruct (time_sleep_run (2 ^ attempt) w1) as (w2 & Hsl & Htr & _).
      exists w2. split; [assumption|]. split; [assumption|].
      rewrite (retry_at_transient _ attempt w w1 e) by assumption.
      now rewrite (bind_unit_step _ _ _ _ Hsl).
    + intros Hlt Hs. split.
      * intros w2 Hre. split; [now apply reinitialize_recoveries|].
        rewrite (retry_at_session _ attempt w w1 e) by assumption.
        now rewrite (bind_unit_step _ _ _ _ Hre).
      * intros e' w2 Hre.
        rewrite (retry_at_session _ attempt w w1 e) by assumption.
        unfold bind. now rewrite Hre.
    + intros Heq. now apply retry_at_final.
  - intros attempt w v w1 Hlt Hop. now apply retry_at_success.
  - intros Hmax w0 e1 w1 w1' e2 w2 w2' v w3 Hkeep H1 S1 R1 H2 S2 R2 H3.
    split.
    + now apply (retry_session_twice_then_success operation w0 w1 w1' w2 w2' w3 e1 e2 v).
    + pose proof (Hkeep w0) as K0. rewrite H1 in K0. cbn in K0.
      pose proof (Hkeep w1') as K1. rewrite H2 in K1. cbn in K1.
      pose proof (Hkeep w2') as K2. rewrite H3 in K2. cbn in K2.
      rewrite (reinitialize_recoveries _ _ R1) in K1.
      rewrite (reinitialize_recoveries _ _ R2) in K2.
      lia.
Qed.

(** ** The partitioner: the recursion is well defined *)

Lemma length_append (a b : string) :
  String.length (a +:+ b) = (String.length a + String.length b)%nat.
Proof. induction a as [|c a IH]; simpl; [reflexivity | now rewrite IH]. Qed.

Lemma elem_of_map {X Y} (g : X -> Y) (xs : list X) (y : Y) :
  y ∈ map g xs <-> exists x, y = g x /\ x ∈ xs.
Proof.
  rewrite list_elem_of_In, in_map_iff. split.
  - intros (x & <- & Hx). exists x. split; [reflexivity|]. now apply list_elem_of_In.
  - intros (x & -> & Hx). exists x. split; [reflexivity|]. now apply list_elem_of_In.
Qed.

Lemma chars_single (s x : string) :
  x ∈ Str.chars s -> exists c, x = String c EmptyString.
Proof.
  induction s as [|c s IH]; simpl; intros H.
  - now apply elem_of_nil in H.
  - apply elem_of_cons in H as [-> | H]; [now exists c | now apply IH].
Qed.

Lemma STATES_nonempty (x : string) : x ∈ STATES -> Str.nonempty x = true.
Proof.
  intros H.
  refine (proj1 (Forall_forall (fun s => Str.nonempty s = true) STATES) _ x H).
  unfold STATES. repeat constructor.
Qed.

Lemma extend_each_ext {X} (xs : list X) (c1 c2 : X -> M (list string)) :
  (forall x, x ∈ xs -> forall w, c1 x w = c2 x w) ->
  forall acc w, extend_each acc xs c1 w = extend_each acc xs c2 w.
Proof.
  induction xs as [|x xs IH]; intros H acc w; simpl; [reflexivity|].
  unfold bind. rewrite (H x) by (apply elem_of_cons; now left).
  destruct (c2 x w) as [[urls|e] w1]; [|reflexivity].
  apply IH. intros y Hy. apply H, elem_of_cons. now right.
Qed.

Lemma extend_each_map {X Y} (g : X -> Y) (xs : list X) (call : Y -> M (list string)) :
  forall acc w,
    extend_each acc (map g xs) call w = extend_each acc xs (fun x => call (g x)) w.
Proof.
  induction xs as [|x xs IH]; intros acc w; simpl; [reflexivity|].
  unfold bind. destruct (call (g x) w) as [[urls|e] w1]; [apply IH | reflexivity].
Qed.

Lemma depth_le_6 (first last middle state : string) :
  (depth first last middle state <= 6)%nat.
Proof. unfold depth. repeat case_match; lia. Qed.

(** Every child filter has fewer narrowing steps ahead than its parent. *)
Lemma children_depth (f c : QueryFilter) (cs : list QueryFilter) :
  children_of f = Some cs ->
  c ∈ cs ->
  (depth (qf_first c) (qf_last c) (qf_middle c) (qf_state c)
   < depth (qf_first f) (qf_last f) (qf_middle f) (qf_state f))%nat.
Proof.
  destruct f as [first last middle state]. unfold children_of. cbn [qf_first qf_last qf_middle qf_state].
  destruct (Str.nonempty last) eqn:Hl; cbn [negb].
  { destruct (Str.nonempty middle) eqn:Hm; cbn [negb].
    { destruct (Str.nonempty state) eqn:Hs; cbn [negb].
      { destruct (Str.len first =? 1) eqn:Hf1.
        { intros Heq Hc. apply (inj Some) in Heq. subst cs.
          apply elem_of_map in Hc as (x & -> & Hx).
          apply chars_single in Hx as [ch ->]. cbn [qf_first qf_last qf_middle qf_state].
          unfold depth. rewrite Hl, Hm, Hs, Hf1. cbn [negb].
          assert ((Str.len (first +:+ String ch "") =? 1) = false) as ->.
          { apply Z.eqb_eq in Hf1. apply Z.eqb_neq. unfold Str.len in *.
            rewrite length_append. cbn. lia. }
          repeat case_match; lia. }
        destruct (Str.len last =? 1) eqn:Hl1.
        { intros Heq Hc. apply (inj Some) in Heq. subst cs.
          apply elem_of_map in Hc as (x & -> & Hx).
          apply chars_single in Hx as [ch ->]. cbn [qf_first qf_last qf_middle qf_state].
          unfold depth. rewrite Hm, Hs, Hf1, Hl1.
          assert (Str.nonempty (last +:+ String ch "") = true) as ->
            by (now destruct last).
          assert ((Str.len (last +:+ String ch "") =? 1) = false) as ->.
          { apply Z.eqb_eq in Hl1. apply Z.eqb_neq. unfold Str.len in *.
            rewrite length_append. cbn. lia. }
          cbn [negb]. repeat case_match; lia. }
        destruct (Str.len middle =? 1) eqn:Hm1; [|discriminate].
        intros Heq Hc. apply (inj Some) in Heq. subst cs.
          apply elem_of_map in Hc as (x & -> & Hx).
        apply chars_single in Hx as [ch ->]. cbn [qf_first qf_last qf_middle qf_state].
        unfold depth. rewrite Hl, Hm, Hs, Hf1, Hl1, Hm1.
        assert (Str.nonempty (middle +:+ String ch "") = true) as ->
          by (now destruct middle).
        assert ((Str.len (middle +:+ String ch "") =? 1) = false) as ->.
        { apply Z.eqb_eq in Hm1. apply Z.eqb_neq. unfold Str.len in *.
          rewrite length_append. cbn. lia. }
        cbn [negb]. lia. }
      intros Heq Hc. apply (inj Some) in Heq. subst cs.
          apply elem_of_map in Hc as (x & -> & Hx).
      apply STATES_nonempty in Hx. cbn [qf_first qf_last qf_middle qf_state].
      unfold depth. rewrite Hl, Hm, Hs, Hx. cbn [negb]. repeat case_match; lia. }
    intros Heq Hc. apply (inj Some) in Heq. subst cs.
          apply elem_of_map in Hc as (x & -> & Hx).
    apply chars_single in Hx as [ch ->]. cbn [qf_first qf_last qf_middle qf_state].
    unfold depth. rewrite Hl, Hm. cbn. lia. }
  intros Heq Hc. apply (inj Some) in Heq. subst cs.
          apply elem_of_map in Hc as (x & -> & Hx).
  apply chars_single in Hx as [ch ->]. cbn [qf_first qf_last qf_middle qf_state].
  unfold depth. rewrite Hl. cbn. lia.
Qed.

Lemma body_narrow
    (self : string -> string -> string -> string -> M (list string))
    (first last middle state : string) (w : World) :
  recursive_search_body urlencode max_retries self first last middle state w
  = match _retry_operation max_retries (search_profiles urlencode first last middle state) w with
    | (Return (Some (Some urls)), w1) =>
        (Return (if Z.of_nat (length urls) <=? CAP then urls else []), w1)
    | (Return _, w1) => narrow urlencode self (mkFilter first last middle state) w1
    | (Raise e, w1) => (Raise e, w1)
    end.
Proof.
  unfold recursive_search_body, bind.
  destruct (_retry_operation _ _ w) as [[r|e] w1]; [|reflexivity].
  assert (Hn : (if negb (Str.nonempty last)
       then extend_each [] (Str.chars ALPHABET) (λ l : string, self first l "" "")
       else
        if negb (Str.nonempty middle)
        then extend_each [] (Str.chars ALPHABET) (λ m : string, self first last m "")
        else
         if negb (Str.nonempty state)
         then extend_each [] STATES (λ s : string, self first last middle s)
         else
          if Str.len first =? 1
          then
           extend_each [] (Str.chars ALPHABET)
             (λ f2 : string, self (first +:+ f2) last middle state)
          else
           if Str.len last =? 1
           then
            extend_each [] (Str.chars ALPHABET)
              (λ l2 : string, self first (last +:+ l2) middle state)
           else
            if Str.len middle =? 1
            then
             extend_each [] (Str.chars ALPHABET)
               (λ m2 : string, self first last (middle +:+ m2) state)
            else collect_first_30 urlencode first last middle state) w1
      = narrow urlencode self (mkFilter first last middle state) w1).
  { unfold narrow, children_of.
    repeat (case_match; [now rewrite extend_each_map|]). reflexivity. }
  destruct r as [[urls|]|]; [|exact Hn|exact Hn].
  now destruct (Z.of_nat (length urls) <=? CAP).
Qed.

Lemma narrow_ext
    (s1 s2 : string -> string -> string -> string -> M (list string)) (f : QueryFilter) :
  (forall first last middle state,
      (depth first last middle state
       < depth (qf_first f) (qf_last f) (qf_middle f) (qf_state f))%nat ->
      forall w, s1 first last middle state w = s2 first last middle state w) ->
  forall w, narrow urlencode s1 f w = narrow urlencode s2 f w.
Proof.
  intros H w. unfold narrow. destruct (children_of f) as [cs|] eqn:Hcs; [|reflexivity].
  apply extend_each_ext. intros c Hc w'. apply H. now apply (children_depth f c cs).
Qed.

Lemma upto_stable (n m : nat) :
  forall first last middle state,
    (depth first last middle state < n)%nat ->
    (depth first last middle state < m)%nat ->
    forall w,
      recursive_search_upto urlencode max_retries n first last middle state w
      = recursive_search_upto urlencode max_retries m first last middle state w.
Proof.
  revert m. induction n as [|n IH]; intros m first last middle state Hn Hm w; [lia|].
  destruct m as [|m]; [lia|]. cbn [recursive_search_upto].
  rewrite !body_narrow.
  destruct (_retry_operation _ _ w) as [[[[urls|]|]|e] w1]; try reflexivity.
  - apply narrow_ext. cbn [qf_first qf_last qf_middle qf_state].
    intros f' l' m' s' Hd w'. apply IH; lia.
  - apply narrow_ext. cbn [qf_first qf_last qf_middle qf_state].
    intros f' l' m' s' Hd w'. apply IH; lia.
Qed.

Lemma upto_unfold (n : nat) (first last middle state : string) (w : World) :
  (depth first last middle state <= n)%nat ->
  recursive_search_upto urlencode max_retries (S n) first last middle state w
  = recursive_search_body urlencode max_retries
      (recursive_search_upto urlencode max_retries (S n)) first last middle state w.
Proof.
  intros Hd.
  change (recursive_search_upto urlencode max_retries (S n) first last middle state w)
    with (recursive_search_body urlencode max_retries
            (recursive_search_upto urlencode max_retries n) first last middle state w).
  rewrite (body_narrow (recursive_search_upto urlencode max_retries n)).
  rewrite (body_narrow (recursive_search_upto urlencode max_retries (S n))).
  destruct (_retry_operation _ _ w) as [[[[urls|]|]|e] w1]; try reflexivity.
  - apply narrow_ext. cbn [qf_first qf_last qf_middle qf_state].
    intros f' l' m' s' Hlt w'. apply upto_stable; lia.
  - apply narrow_ext. cbn [qf_first qf_last qf_middle qf_state].
    intros f' l' m' s' Hlt w'. apply upto_stable; lia.
Qed.

(** [recursive_search] satisfies the equation of the source: seven nested
    calls are enough for every filter. *)
Lemma recursive_search_unfold (first last middle state : string) (w : World) :
  recursive_search urlencode max_retries first last middle state w
  = recursive_search_body urlencode max_retries
      (recursive_search urlencode max_retries) first last middle state w.
Proof. apply (upto_unfold 6), depth_le_6. Qed.

(** ** The partitioner: base case, narrowing and the last branch *)

Lemma resolve_unfold (f : QueryFilter) (w : World) :
  resolve urlencode max_retries f w
  = match probe urlencode max_retries f w with
    | (Return (Some (Some urls)), w1) =>
        (Return (if Z.of_nat (length urls) <=? CAP then urls else []), w1)
    | (Return _, w1) =>
        narrow urlencode (recursive_search urlencode max_retries) f w1
    | (Raise e, w1) => (Raise e, w1)
    end.
Proof.
  destruct f as [first last middle state]. unfold resolve, probe.
  cbn [qf_first qf_last qf_middle qf_state].
  rewrite recursive_search_unfold. apply body_narrow.
Qed.

Lemma resolve_over_limit (f : QueryFilter) (w w1 : World)
    (r : option (option (list string))) :
  probe urlencode max_retries f w = (Return r, w1) ->
  over_limit r ->
  resolve urlencode max_retries f w
  = narrow urlencode (recursive_search urlencode max_retries) f w1.
Proof.
  intros Hp Hr. rewrite resolve_unfold, Hp. now destruct Hr as [-> | ->].
Qed.

Lemma narrow_children (f : QueryFilter) (cs : list QueryFilter) (w : World) :
  children_of f = Some cs ->
  narrow urlencode (recursive_search urlencode max_retries) f w
  = resolve_all urlencode max_retries cs w.
Proof. intros H. unfold narrow. now rewrite H. Qed.

Lemma narrow_last_branch (f : QueryFilter) (w : World) :
  children_of f = None ->
  narrow urlencode (recursive_search urlencode max_retries) f w
  = collect_first_30 urlencode (qf_first f) (qf_last f) (qf_middle f) (qf_state f) w.
Proof. intros H. unfold narrow. now rewrite H. Qed.

(** A value returned by the runner was returned by the operation. *)
Lemma retry_loop_return_inv {A} (operation : M A) (attempts : list Z) :
  forall w v w1,
    retry_loop max_retries operation attempts w = (Return (Some v), w1) ->
    exists w0, operation w0 = (Return v, w1).
Proof.
  induction attempts as [|attempt rest IH]; intros w v w1; simpl.
  - intros [=].
  - destruct (operation w) as [[v0|e] w0] eqn:Hop.
    + intros [= <- <-]. now exists w.
    + assert (Hsleep :
        (time_sleep (2 ^ attempt) ;;; retry_loop max_retries operation rest) w0
        = (Return (Some v), w1) -> exists w', operation w' = (Return v, w1)).
      { unfold bind. cbn. apply IH. }
      assert (Hre :
        (_reinitialize_browser ;;; retry_loop max_retries operation rest) w0
        = (Return (Some v), w1) -> exists w', operation w' = (Return v, w1)).
      { unfold bind. destruct (_reinitialize_browser w0) as [[[]|e'] w2]; [apply IH | intros [=]]. }
      destruct (is_session_error e), (attempt <? max_retries - 1);
        try assumption; intros [=].
Qed.

Lemma search_profiles_fetch (first last middle state : string) (w : World) :
  search_profiles urlencode first last middle state w
  = match fetch_search_page urlencode first last middle state w with
    | (Return page, w1) =>
        (Return (if CAP <? Z.of_nat (length (page_urls page))
                 then None else Some (page_urls page)), w1)
    | (Raise e, w1) => (Raise e, w1)
    end.
Proof.
  unfold search_profiles, fetch_search_page, bind.
  destruct (driver_current_url w) as [[[]|e] w1]; [|reflexivity].
  destruct (driver_get _ w1) as [[[]|e] w2]; [|reflexivity].
  destruct (time_sleep 5 w2) as [[[]|e] w3]; [|reflexivity].
  destruct (driver_search_page w3) as [[page|e] w4]; [|reflexivity].
  now destruct (CAP <? Z.of_nat (length (page_urls page))).
Qed.

(** A result of the probe is the URL list of a page that was read, and it
    is within the cap. *)
Lemma probe_results_inv (f : QueryFilter) (w w1 : World) (urls : list string) :
  probe urlencode max_retries f w = (Return (Some (Some urls)), w1) ->
  exists w0 page,
    fetch_search_page urlencode (qf_first f) (qf_last f) (qf_middle f) (qf_state f) w0
    = (Return page, w1)
    /\ urls = page_urls page
    /\ Z.of_nat (length urls) <= CAP.
Proof.
  unfold probe, _retry_operation. intros H.
  apply retry_loop_return_inv in H as [w0 H]. exists w0.
  rewrite search_profiles_fetch in H.
  destruct (fetch_search_page _ _ _ _ _ w0) as [[page|e] w2]; [|discriminate].
  exists page.
  destruct (Z.ltb_spec CAP (Z.of_nat (length (page_urls page)))); [discriminate|].
  injection H as <- <-. auto.
Qed.

(** A probe whose first attempt reads a page within the cap. *)
Lemma probe_within_cap (f : QueryFilter) (w w1 : World) (page : SearchPage) :
  0 < max_retries ->
  fetch_search_page urlencode (qf_first f) (qf_last f) (qf_middle f) (qf_state f) w
  = (Return page, w1) ->
  Z.of_nat (length (page_urls page)) <= CAP ->
  probe urlencode max_retries f w = (Return (Some (Some (page_urls page))), w1).
Proof.
  intros Hmax Hf Hc. unfold probe. rewrite retry_operation_at_0.
  apply retry_at_success; [lia|].
  rewrite search_profiles_fetch, Hf.
  destruct (Z.ltb_spec CAP (Z.of_nat (length (page_urls page)))); [lia | reflexivity].
Qed.

(** C3. When the probe of a filter returns a result list, which it does
    exactly for a count of at most 30, zero included, [recursive_search]
    returns that list, the URL list of the page the probe read, and stops
    in the state the probe left: nothing is narrowed. *)
Theorem C3_within_cap_is_base_case (f : QueryFilter) :
  (forall w urls w1,
      probe urlencode max_retries f w = (Return (Some (Some urls)), w1) ->
      resolve urlencode max_retries f w = (Return urls, w1)
      /\ Z.of_nat (length urls) <= CAP
      /\ exists w0 page,
           fetch_search_page urlencode (qf_first f) (qf_last f) (qf_middle f) (qf_state f) w0
           = (Return page, w1)
           /\ urls = page_urls page)
  /\ (forall w page w1,
        0 < max_retries ->
        fetch_search_page urlencode (qf_first f) (qf_last f) (qf_middle f) (qf_state f) w
        = (Return page, w1) ->
        Z.of_nat (length (page_urls page)) <= CAP ->
        resolve urlencode max_retries f w = (Return (page_urls page), w1)).
Proof.
  assert (Hbase : forall w urls w1,
      probe urlencode max_retries f w = (Return (Some (Some urls)), w1) ->
      resolve urlencode max_retries f w = (Return urls, w1)
      /\ Z.of_nat (length urls) <= CAP
      /\ exists w0 page,
           fetch_search_page urlencode (qf_first f) (qf_last f) (qf_middle f) (qf_state f) w0
           = (Return page, w1)
           /\ urls = page_urls page).
  { intros w urls w1 Hp.
    destruct (probe_results_inv f w w1 urls Hp) as (w0 & page & Hf & Hu & Hc).
    split; [|split; [assumption | now exists w0, page]].
    rewrite resolve_unfold, Hp.
    destruct (Z.leb_spec (Z.of_nat (length urls)) CAP); [reflexivity | lia]. }
  split; [exact Hbase|].
  intros w page w1 Hmax Hf Hc.
  apply Hbase. now apply probe_within_cap.
Qed.

Lemma resolve_all_in_turn (cs : list QueryFilter) (w w2 : World) (rs : list (list string)) :
  resolved_in_turn urlencode max_retries cs w rs w2 ->
  forall acc,
    extend_each acc cs (resolve urlencode max_retries) w = (Return (acc ++ concat rs), w2).
Proof.
  induction 1 as [w | c cs w urls w1 rest w2 Hc Hrest IH]; intros acc; simpl.
  - now rewrite app_nil_r.
  - unfold bind. rewrite Hc, IH. now rewrite app_assoc.
Qed.

Lemma in_turn_resolve_all (cs : list QueryFilter) :
  forall acc w l w2,
    extend_each acc cs (resolve urlencode max_retries) w = (Return l, w2) ->
    exists rs, resolved_in_turn urlencode max_retries cs w rs w2 /\ l = acc ++ concat rs.
Proof.
  induction cs as [|c cs IH]; intros acc w l w2; simpl.
  - intros [= <- <-]. exists []. split; [constructor | now rewrite app_nil_r].
  - unfold bind. destruct (resolve urlencode max_retries c w) as [[urls|e] w1] eqn:Hc; [|intros [=]].
    intros H. apply IH in H as (rs & Hrs & ->).
    exists (urls :: rs). split; [now apply rit_cons with w1|].
    simpl. now rewrite app_assoc.
Qed.

(** C4, amended. When the probe reports more matches than the cap and the
    filter can still be narrowed, [recursive_search] resolves the child
    filters in their order and returns their results appended one after the
    other, duplicates included: the identifiers returned are those of the
    union of the children's results, and an identifier that several
    children return is returned as often. The children refine the last
    initial over the 26 letters when it is empty, else the middle initial
    over the 26 letters when it is empty, else the region over the 50
    region codes when it is empty. *)
Theorem C4_over_limit_concatenates_children
    (f : QueryFilter) (w w1 : World) (r : option (option (list string)))
    (cs : list QueryFilter) :
  probe urlencode max_retries f w = (Return r, w1) ->
  over_limit r ->
  children_of f = Some cs ->
  resolve urlencode max_retries f w = resolve_all urlencode max_retries cs w1
  /\ (forall rs w2,
        resolved_in_turn urlencode max_retries cs w1 rs w2 ->
        resolve urlencode max_retries f w = (Return (concat rs), w2)
        /\ forall u, u ∈ concat rs <-> exists urls, urls ∈ rs /\ u ∈ urls)
  /\ (forall l w2,
        resolve urlencode max_retries f w = (Return l, w2) ->
        exists rs, resolved_in_turn urlencode max_retries cs w1 rs w2 /\ l = concat rs)
  /\ (Str.nonempty (qf_last f) = false ->
      map qf_last cs = Str.chars ALPHABET /\ length cs = 26%nat)
  /\ (Str.nonempty (qf_last f) = true -> Str.nonempty (qf_middle f) = false ->
      map qf_middle cs = Str.chars ALPHABET /\ length cs = 26%nat)
  /\ (Str.nonempty (qf_last f) = true -> Str.nonempty (qf_middle f) = true ->
      Str.nonempty (qf_state f) = false ->
      map qf_state cs = STATES /\ length cs = 50%nat).
Proof.
  intros Hp Hr Hcs.
  assert (Heq : resolve urlencode max_retries f w = resolve_all urlencode max_retries cs w1).
  { rewrite (resolve_over_limit f w w1 r Hp Hr). now apply narrow_children. }
  split; [exact Heq|]. split; [|split].
  - intros rs w2 Hrs. split.
    + rewrite Heq. unfold resolve_all. now rewrite (resolve_all_in_turn cs w1 w2 rs Hrs []).
    + intros u. rewrite list_elem_of_In, in_concat. split.
      * intros (urls & Hin & Hu). exists urls. now rewrite !list_elem_of_In.
      * intros (urls & Hin & Hu). exists urls. now rewrite <- !list_elem_of_In.
  - intros l w2 Hl. rewrite Heq in Hl. unfold resolve_all in Hl.
    now apply in_turn_resolve_all in Hl.
  - destruct f as [first last middle state]. cbn [qf_last qf_middle qf_state] in *.
    unfold children_of in Hcs. split; [|split].
    + intros Hl. rewrite Hl in Hcs. cbn [negb] in Hcs. injection Hcs as <-.
      split; reflexivity.
    + intros Hl Hm. rewrite Hl, Hm in Hcs. cbn [negb] in Hcs. injection Hcs as <-.
      split; reflexivity.
    + intros Hl Hm Hs. rewrite Hl, Hm, Hs in Hcs. cbn [negb] in Hcs. injection Hcs as <-.
      split; reflexivity.
Qed.

Lemma driver_get_run (url : string) (w : World) :
  exists r w1, driver_get url w = (r, w1) /\ trace w1 = trace w ++ [EvGet url]
               /\ csv_file w1 = csv_file w.
Proof.
  unfold driver_get, env_call. cbn.
  destruct (drv_get url (env w)) as [r e]. now exists r, (with_env (log_event (EvGet url) w) e).
Qed.

Lemma driver_search_page_run (w : World) :
  exists r w1, driver_search_page w = (r, w1) /\ trace w1 = trace w
               /\ csv_file w1 = csv_file w.
Proof.
  unfold driver_search_page, env_call.
  destruct (drv_search_page (env w)) as [r e]. now exists r, (with_env w e).
Qed.

Lemma visited_app (w w1 : World) (evs : list Event) :
  trace w1 = trace w ++ evs ->
  visited w1
  = visited w ++ flat_map (fun ev => match ev with EvGet url => [url] | _ => [] end) evs.
Proof. intros H. unfold visited. rewrite H. apply flat_map_app. Qed.

Lemma extract_urls_length (results : list Tag) :
  (length (extract_urls results) <= length results)%nat.
Proof.
  induction results as [|t ts IH]; simpl; [lia|].
  destruct (Str.nonempty (href t)); simpl; lia.
Qed.

(** The last branch always returns: at most 30 URLs, taken from the first
    30 links of the page when it could be read, and none otherwise. *)
Lemma collect_first_30_run (first last middle state : string) (w : World) :
  exists l w2,
    collect_first_30 urlencode first last middle state w = (Return l, w2)
    /\ (length l <= 30)%nat
    /\ visited w2 = visited w ++ [direct_url urlencode first last middle state]
    /\ (l = []
        \/ exists w' page,
             driver_search_page w' = (Return page, w2)
             /\ l = extract_urls (take 30 (npi_links page))).
Proof.
  unfold collect_first_30, try_except, bind.
  fold (direct_url urlencode first last middle state).
  destruct (driver_get_run (direct_url urlencode first last middle state) w)
    as (r & w1 & Hg & Ht1 & _).
  rewrite Hg. destruct r as [[]|e].
  - destruct (time_sleep_run 5 w1) as (w2 & Hs & Ht2 & _). rewrite Hs.
    destruct (driver_search_page_run w2) as (r3 & w3 & Hp & Ht3 & _). rewrite Hp.
    assert (Hv : visited w3 = visited w ++ [direct_url urlencode first last middle state]).
    { rewrite (visited_app w w3 [EvGet (direct_url urlencode first last middle state); EvSleep 5]).
      - reflexivity.
      - rewrite Ht3, Ht2, Ht1. now rewrite <- app_assoc. }
    destruct r3 as [page|e].
    + exists (extract_urls (take 30 (npi_links page))), w3.
      split; [reflexivity|]. split; [|split; [exact Hv|]].
      * etransitivity; [apply extract_urls_length|]. rewrite length_take. lia.
      * right. now exists w2, page.
    + exists [], w3. split; [reflexivity|]. split; [simpl; lia|]. split; [exact Hv | now left].
  - exists [], w1. split; [reflexivity|]. split; [simpl; lia|]. split; [|now left].
    now rewrite (visited_app w w1 [EvGet (direct_url urlencode first last middle state)]).
Qed.

Lemma children_of_last_branch (first last middle state : string) :
  Str.nonempty last = true -> Str.nonempty middle = true -> Str.nonempty state = true ->
  Str.len first <> 1 -> Str.len last <> 1 -> Str.len middle <> 1 ->
  children_of (mkFilter first last middle state) = None.
Proof.
  intros Hl Hm Hs Hf1 Hl1 Hm1. unfold children_of. rewrite Hl, Hm, Hs. cbn [negb].
  apply Z.eqb_neq in Hf1, Hl1, Hm1. now rewrite Hf1, Hl1, Hm1.
Qed.

(** The loop over the children, read in both directions. *)
Lemma over_limit_in_turn (f : QueryFilter) (w w1 : World)
    (r : option (option (list string))) (cs : list QueryFilter) :
  probe urlencode max_retries f w = (Return r, w1) ->
  over_limit r ->
  children_of f = Some cs ->
  (forall rs w2,
      resolved_in_turn urlencode max_retries cs w1 rs w2 ->
      resolve urlencode max_retries f w = (Return (concat rs), w2))
  /\ (forall l w2,
        resolve urlencode max_retries f w = (Return l, w2) ->
        exists rs, resolved_in_turn urlencode max_retries cs w1 rs w2 /\ l = concat rs).
Proof.
  intros Hp Hr Hcs.
  assert (Heq : resolve urlencode max_retries f w = resolve_all urlencode max_retries cs w1).
  { rewrite (resolve_over_limit f w w1 r Hp Hr). now apply narrow_children. }
  split.
  - intros rs w2 Hrs. rewrite Heq. unfold resolve_all.
    now rewrite (resolve_all_in_turn cs w1 w2 rs Hrs []).
  - intros l w2 Hl. rewrite Heq in Hl. unfold resolve_all in Hl.
    now apply in_turn_resolve_all in Hl.
Qed.

(** The URL loop, link by link. *)
Lemma extract_urls_map_filter (results : list Tag) :
  extract_urls results
  = map (fun t => if Str.startswith (href t) "http" then href t
                  else "https://npidb.org" +:+ href t)
        (List.filter (fun t => Str.nonempty (href t)) results).
Proof.
  induction results as [|t ts IH]; [reflexivity|].
  unfold extract_urls in *. cbn [flat_map List.filter].
  destruct (Str.nonempty (href t)); cbn [app map]; now rewrite IH.
Qed.

(** C6. A filter with last initial, middle initial and region all set
    that still has more matches than the cap. When the first initial has
    exactly one character, the 26 filters that extend it by one letter are
    searched one after the other, each from the state the one before left,
    and the result is their results appended in this order; else the same
    with the last initial, when it has exactly one character; else the same
    with the middle initial, when it has exactly one character. When none
    of the three has exactly one character, exactly one direct query is
    made; when its page can be read, the result is the URL of every one of
    the first 30 ten-digit links that has an href, in page order, the
    relative ones made absolute, and the links behind the 30th are
    dropped. *)
Theorem C6_second_characters_then_first_30
    (first last middle state : string) (w w1 : World)
    (r : option (option (list string))) :
  probe urlencode max_retries (mkFilter first last middle state) w = (Return r, w1) ->
  over_limit r ->
  Str.nonempty last = true -> Str.nonempty middle = true -> Str.nonempty state = true ->
  let searched_in_turn (cs : list QueryFilter) :=
    (forall rs w2,
        resolved_in_turn urlencode max_retries cs w1 rs w2 ->
        resolve urlencode max_retries (mkFilter first last middle state) w
        = (Return (concat rs), w2))
    /\ (forall l w2,
          resolve urlencode max_retries (mkFilter first last middle state) w
          = (Return l, w2) ->
          exists rs, resolved_in_turn urlencode max_retries cs w1 rs w2 /\ l = concat rs) in
  (Str.len first = 1 ->
   searched_in_turn
     (map (fun c => mkFilter (first +:+ c) last middle state) (Str.chars ALPHABET)))
  /\ (Str.len first <> 1 -> Str.len last = 1 ->
      searched_in_turn
        (map (fun c => mkFilter first (last +:+ c) middle state) (Str.chars ALPHABET)))
  /\ (Str.len first <> 1 -> Str.len last <> 1 -> Str.len middle = 1 ->
      searched_in_turn
        (map (fun c => mkFilter first last (middle +:+ c) state) (Str.chars ALPHABET)))
  /\ (Str.len first <> 1 -> Str.len last <> 1 -> Str.len middle <> 1 ->
      (exists l w2,
          resolve urlencode max_retries (mkFilter first last middle state) w = (Return l, w2)
          /\ (length l <= 30)%nat
          /\ visited w2 = visited w1 ++ [direct_url urlencode first last middle state])
      /\ (forall w2 w3 page w4,
            driver_get (direct_url urlencode first last middle state) w1 = (Return tt, w2) ->
            time_sleep 5 w2 = (Return tt, w3) ->
            driver_search_page w3 = (Return page, w4) ->
            resolve urlencode max_retries (mkFilter first last middle state) w
            = (Return
                 (map (fun t => if Str.startswith (href t) "http" then href t
                                else "https://npidb.org" +:+ href t)
                    (List.filter (fun t => Str.nonempty (href t))
                       (take 30 (npi_links page)))),
               w4)))
  /\ length (Str.chars ALPHABET) = 26%nat
  /\ (forall x c, c ∈ Str.chars ALPHABET -> Str.len x = 1 -> Str.len (x +:+ c) = 2).
Proof.
  intros Hp Hr Hl Hm Hs searched_in_turn. subst searched_in_turn. cbv beta.
  split; [|split; [|split; [|split; [|split]]]].
  - intros Hf1. apply (over_limit_in_turn _ w w1 r); [assumption | assumption |].
    unfold children_of. rewrite Hl, Hm, Hs. cbn [negb].
    apply Z.eqb_eq in Hf1. now rewrite Hf1.
  - intros Hf1 Hl1. apply (over_limit_in_turn _ w w1 r); [assumption | assumption |].
    unfold children_of. rewrite Hl, Hm, Hs. cbn [negb].
    apply Z.eqb_neq in Hf1. apply Z.eqb_eq in Hl1. now rewrite Hf1, Hl1.
  - intros Hf1 Hl1 Hm1. apply (over_limit_in_turn _ w w1 r); [assumption | assumption |].
    unfold children_of. rewrite Hl, Hm, Hs. cbn [negb].
    apply Z.eqb_neq in Hf1, Hl1. apply Z.eqb_eq in Hm1. now rewrite Hf1, Hl1, Hm1.
  - intros Hf1 Hl1 Hm1.
    assert (Heq : resolve urlencode max_retries (mkFilter first last middle state) w
                  = collect_first_30 urlencode first last middle state w1).
    { rewrite (resolve_over_limit _ w w1 r Hp Hr).
      now rewrite narrow_last_branch by now apply children_of_last_branch. }
    rewrite Heq. split.
    + destruct (collect_first_30_run first last middle state w1)
        as (l & w2 & Hrun & Hlen & Hv & _).
      now exists l, w2.
    + intros w2 w3 page w4 Hg Hsl Hpg. unfold collect_first_30, try_except, bind.
      fold (direct_url urlencode first last middle state).
      rewrite Hg, Hsl, Hpg. unfold ret. now rewrite extract_urls_map_filter.
  - reflexivity.
  - intros x c Hc Hx. apply chars_single in Hc as [ch ->].
    unfold Str.len in *. rewrite length_append. cbn. lia.
Qed.

(** C10. In the last branch (last initial, middle initial and region
    set, none of the three name fields of exactly one character, more
    matches than the cap) [recursive_search] returns a list and raises
    nothing, whatever the direct query does: when loading the page or
    reading it raises, the result is the empty list gathered so far. *)
Theorem C10_last_branch_swallows_errors
    (first last middle state : string) (w w1 : World)
    (r : option (option (list string))) :
  probe urlencode max_retries (mkFilter first last middle state) w = (Return r, w1) ->
  over_limit r ->
  Str.nonempty last = true -> Str.nonempty middle = true -> Str.nonempty state = true ->
  Str.len first <> 1 -> Str.len last <> 1 -> Str.len middle <> 1 ->
  (exists l w2,
      resolve urlencode max_retries (mkFilter first last middle state) w = (Return l, w2))
  /\ (forall e w2,
        driver_get (direct_url urlencode first last middle state) w1 = (Raise e, w2) ->
        resolve urlencode max_retries (mkFilter first last middle state) w = (Return [], w2))
  /\ (forall w2 w3 e w4,
        driver_get (direct_url urlencode first last middle state) w1 = (Return tt, w2) ->
        time_sleep 5 w2 = (Return tt, w3) ->
        driver_search_page w3 = (Raise e, w4) ->
        resolve urlencode max_retries (mkFilter first last middle state) w = (Return [], w4)).
Proof.
  intros Hp Hr Hl Hm Hs Hf1 Hl1 Hm1.
  assert (Heq : resolve urlencode max_retries (mkFilter first last middle state) w
                = collect_first_30 urlencode first last middle state w1).
  { rewrite (resolve_over_limit _ w w1 r Hp Hr).
    now rewrite narrow_last_branch by now apply children_of_last_branch. }
  rewrite Heq. split; [|split].
  - destruct (collect_first_30_run first last middle state w1) as (l & w2 & H & _).
    now exists l, w2.
  - intros e w2 Hg. unfold collect_first_30, try_except, bind.
    fold (direct_url urlencode first last middle state). now rewrite Hg.
  - intros w2 w3 e w4 Hg Hsl Hpg. unfold collect_first_30, try_except, bind.
    fold (direct_url urlencode first last middle state). now rewrite Hg, Hsl, Hpg.
Qed.

(** ** The orchestrator *)

Lemma keeps_ret {A} (a : A) : keeps_csv (ret a : M A).
Proof. intros w. reflexivity. Qed.

Lemma keeps_bind {A B} (m : M A) (k : A -> M B) :
  keeps_csv m -> (forall a, keeps_csv (k a)) -> keeps_csv (bind m k).
Proof.
  intros Hm Hk w. unfold bind. specialize (Hm w).
  destruct (m w) as [[a|e] w1]; cbn in *; [|assumption].
  now rewrite Hk.
Qed.

Lemma keeps_try_except {A} (m : M A) (handler : string -> M A) :
  keeps_csv m -> (forall e, keeps_csv (handler e)) -> keeps_csv (try_except m handler).
Proof.
  intros Hm Hh w. unfold try_except. specialize (Hm w).
  destruct (m w) as [[a|e] w1]; cbn in *; [assumption|].
  now rewrite Hh.
Qed.

Lemma keeps_env_call {A} (f : Env -> Result A * Env) : keeps_csv (env_call f).
Proof. intros w. unfold env_call. now destruct (f (env w)). Qed.

Lemma keeps_driver_get (url : string) : keeps_csv (driver_get url).
Proof.
  intros w. destruct (driver_get_run url w) as (r & w1 & H & _ & Hc). now rewrite H.
Qed.

Lemma keeps_time_sleep (n : Z) : keeps_csv (time_sleep n).
Proof. intros w. reflexivity. Qed.

Lemma keeps_reinitialize : keeps_csv _reinitialize_browser.
Proof.
  intros w. unfold _reinitialize_browser.
  rewrite (keeps_bind (env_call drv_restart) (fun _ => time_sleep 3)
             (keeps_env_call _) (fun _ => keeps_time_sleep 3)).
  reflexivity.
Qed.

Lemma retry_loop_cons {A} (operation : M A) (attempt : Z) (rest : list Z) (w : World) :
  retry_loop max_retries operation (attempt :: rest) w
  = match operation w with
    | (Return v, w1) => (Return (Some v), w1)
    | (Raise e, w1) =>
        if is_session_error e && (attempt <? max_retries - 1)
        then (_reinitialize_browser ;;; retry_loop max_retries operation rest) w1
        else if attempt <? max_retries - 1
        then (time_sleep (2 ^ attempt) ;;; retry_loop max_retries operation rest) w1
        else (Raise e, w1)
    end.
Proof.
  cbn [retry_loop]. destruct (operation w) as [[v|e] w1]; [reflexivity|].
  now destruct (is_session_error e), (attempt <? max_retries - 1).
Qed.

Lemma keeps_retry_loop {A} (operation : M A) (attempts : list Z) :
  keeps_csv operation -> keeps_csv (retry_loop max_retries operation attempts).
Proof.
  intros Hop. induction attempts as [|attempt rest IH]; intros w; [reflexivity|].
  rewrite retry_loop_cons.
  specialize (Hop w). destruct (operation w) as [[v|e] w1]; cbn [snd] in *; [assumption|].
  pose proof (keeps_bind _ (fun _ => retry_loop max_retries operation rest)
                (keeps_time_sleep (2 ^ attempt)) (fun _ => IH) w1) as Hs.
  pose proof (keeps_bind _ (fun _ => retry_loop max_retries operation rest)
                keeps_reinitialize (fun _ => IH) w1) as Hr.
  destruct (is_session_error e), (attempt <? max_retries - 1); cbn [andb snd]; congruence.
Qed.

Lemma keeps_search_profiles (first last middle state : string) :
  keeps_csv (search_profiles urlencode first last middle state).
Proof.
  unfold search_profiles.
  apply keeps_bind; [apply keeps_env_call|]. intros _.
  apply keeps_bind; [apply keeps_driver_get|]. intros _.
  apply keeps_bind; [apply keeps_time_sleep|]. intros _.
  apply keeps_bind; [apply keeps_env_call|]. intros page.
  destruct (CAP <? _); apply keeps_ret.
Qed.

Lemma keeps_collect_first_30 (first last middle state : string) :
  keeps_csv (collect_first_30 urlencode first last middle state).
Proof.
  unfold collect_first_30. apply keeps_try_except; [|intros; apply keeps_ret].
  apply keeps_bind; [apply keeps_driver_get|]. intros _.
  apply keeps_bind; [apply keeps_time_sleep|]. intros _.
  apply keeps_bind; [apply keeps_env_call|]. intros page. apply keeps_ret.
Qed.

Lemma keeps_extend_each {X} (xs : list X) (call : X -> M (list string)) :
  (forall x, keeps_csv (call x)) -> forall acc, keeps_csv (extend_each acc xs call).
Proof.
  intros Hc. induction xs as [|x xs IH]; intros acc; simpl; [apply keeps_ret|].
  apply keeps_bind; [apply Hc|]. intros urls. apply IH.
Qed.

Lemma keeps_recursive_search_upto (n : nat) :
  forall first last middle state,
    keeps_csv (recursive_search_upto urlencode max_retries n first last middle state).
Proof.
  induction n as [|n IH]; intros first last middle state; [intros w; reflexivity|].
  cbn [recursive_search_upto]. unfold recursive_search_body.
  apply keeps_bind; [apply keeps_retry_loop, keeps_search_profiles|].
  intros r.
  assert (Hn : keeps_csv
    (if negb (Str.nonempty last)
     then extend_each [] (Str.chars ALPHABET)
            (fun l => recursive_search_upto urlencode max_retries n first l "" "")
     else if negb (Str.nonempty middle)
     then extend_each [] (Str.chars ALPHABET)
            (fun m => recursive_search_upto urlencode max_retries n first last m "")
     else if negb (Str.nonempty state)
     then extend_each [] STATES
            (fun s => recursive_search_upto urlencode max_retries n first last middle s)
     else if Str.len first =? 1
     then extend_each [] (Str.chars ALPHABET)
            (fun f2 => recursive_search_upto urlencode max_retries n (first +:+ f2) last middle state)
     else if Str.len last =? 1
     then extend_each [] (Str.chars ALPHABET)
            (fun l2 => recursive_search_upto urlencode max_retries n first (last +:+ l2) middle state)
     else if Str.len middle =? 1
     then extend_each [] (Str.chars ALPHABET)
            (fun m2 => recursive_search_upto urlencode max_retries n first last (middle +:+ m2) state)
     else collect_first_30 urlencode first last middle state)).
  { repeat (case_match; [apply keeps_extend_each; intros; apply IH|]).
    apply keeps_collect_first_30. }
  destruct r as [[urls|]|]; [|exact Hn|exact Hn].
  destruct (Z.of_nat (length urls) <=? CAP); apply keeps_ret.
Qed.

(** Discovery does not touch moms.csv. *)
Lemma keeps_scrape_search_results (params : QueryFilter) :
  keeps_csv (scrape_search_results urlencode max_retries params).
Proof.
  unfold scrape_search_results, recursive_search.
  destruct (Str.nonempty (qf_first params)); [apply keeps_recursive_search_upto|].
  apply keeps_bind; [|intros; apply keeps_ret].
  apply keeps_extend_each. intros. apply keeps_recursive_search_upto.
Qed.

(** Without a first initial in the root filter the discovered list has no
    duplicates. *)
Lemma scrape_search_results_unconstrained_NoDup
    (params : QueryFilter) (w w1 : World) (all_urls : list string) :
  Str.nonempty (qf_first params) = false ->
  scrape_search_results urlencode max_retries params w = (Return all_urls, w1) ->
  NoDup all_urls.
Proof.
  intros Hf. unfold scrape_search_results. rewrite Hf. unfold bind.
  destruct (extend_each _ _ _ w) as [[l|e] w2]; [|intros [=]].
  intros [= <- <-]. apply NoDup_elements.
Qed.

Lemma elem_of_urls_to_scrape (all_urls : list string) (scraped_urls : gset string)
    (u : string) :
  u ∈ urls_to_scrape_of all_urls scraped_urls <-> u ∈ all_urls /\ u ∉ scraped_urls.
Proof.
  unfold urls_to_scrape_of. rewrite !list_elem_of_In, filter_In.
  rewrite negb_true_iff, bool_decide_eq_false. reflexivity.
Qed.

Lemma urls_to_scrape_nil (all_urls : list string) (scraped_urls : gset string) :
  (forall u, u ∈ all_urls -> u ∈ scraped_urls) ->
  urls_to_scrape_of all_urls scraped_urls = [].
Proof.
  intros H. destruct (urls_to_scrape_of all_urls scraped_urls) as [|u l] eqn:E; [reflexivity|].
  assert (Hu : u ∈ urls_to_scrape_of all_urls scraped_urls)
    by (rewrite E; apply elem_of_cons; now left).
  apply elem_of_urls_to_scrape in Hu as [Hin Hnot]. now apply H in Hin.
Qed.

(** C7. A run that discovers only URLs that are already in the URL column
    of moms.csv has an empty work list: it fetches no profile and appends
    no row. In general the work list holds the discovered URLs that are not
    in that column. *)
Theorem C7_resume_appends_nothing
    (params : QueryFilter) (w w1 : World) (all_urls : list string) :
  scrape_search_results urlencode max_retries params w = (Return all_urls, w1) ->
  (forall u, u ∈ all_urls -> u ∈ read_scraped_urls isna (csv_file w)) ->
  (exists w2,
      scrape_all urlencode isna max_retries params w = (Return (Some []), w2)
      /\ rows_of (csv_file w2) = rows_of (csv_file w)
      /\ trace w2 = trace w1)
  /\ urls_to_scrape_of all_urls (read_scraped_urls isna (csv_file w)) = []
  /\ (forall scraped_urls u,
        u ∈ urls_to_scrape_of all_urls scraped_urls <-> u ∈ all_urls /\ u ∉ scraped_urls).
Proof.
  intros Hd Hin.
  pose proof (keeps_scrape_search_results params w) as Hk. rewrite Hd in Hk. cbn in Hk.
  pose proof (urls_to_scrape_nil _ _ Hin) as Hnil.
  split; [|split; [exact Hnil | intros; apply elem_of_urls_to_scrape]].
  unfold scrape_all, bind. rewrite Hd, Hk, Hnil. unfold init_csv.
  destruct (csv_file w1) as [ledger|] eqn:Hc; cbn.
  - exists w1. now rewrite Hc, <- Hk.
  - eexists. split; [reflexivity|]. cbn. now rewrite <- Hk.
Qed.

End Properties.

(** ** The finalizer: duplicates and validation *)

Lemma drop_duplicates_elem (df : list RawRecord) :
  forall seen r, r ∈ drop_duplicates seen df -> r ∈ df /\ NPI r ∉ seen.
Proof.
  induction df as [|row rest IH]; intros seen r; simpl.
  - intros H. now apply elem_of_nil in H.
  - case_bool_decide as Hseen.
    + intros H. apply IH in H as [H1 H2]. split; [apply elem_of_cons; now right | assumption].
    + intros H. apply elem_of_cons in H as [-> | H].
      * split; [apply elem_of_cons; now left | assumption].
      * apply IH in H as [H1 H2]. split; [apply elem_of_cons; now right|].
        intros Hc. apply H2, elem_of_union. now right.
Qed.

(** The first row with a given NPI outside [seen] is kept. *)
Lemma drop_duplicates_keeps_first (df : list RawRecord) (n : string) :
  forall seen r0,
    n ∉ seen ->
    List.find (fun x => bool_decide (NPI x = n)) df = Some r0 ->
    r0 ∈ drop_duplicates seen df.
Proof.
  induction df as [|row rest IH]; intros seen r0 Hn; simpl; [intros [=]|].
  case_bool_decide as Heq.
  - intros [= <-]. subst n. rewrite bool_decide_eq_false_2 by assumption.
    apply elem_of_cons. now left.
  - intros Hfind. case_bool_decide as Hseen.
    + now apply IH.
    + apply elem_of_cons. right. apply IH; [|assumption].
      intros Hc. apply elem_of_union in Hc as [Hc | Hc]; [|contradiction].
      apply elem_of_singleton in Hc. congruence.
Qed.

Lemma drop_duplicates_NoDup (df : list RawRecord) :
  forall seen, NoDup (map NPI (drop_duplicates seen df)).
Proof.
  induction df as [|row rest IH]; intros seen; simpl; [constructor|].
  case_bool_decide as Hseen; [apply IH|].
  simpl. constructor; [|apply IH].
  intros Hin. apply elem_of_map in Hin as (r & Hr & Hin).
  apply drop_duplicates_elem in Hin as [_ Hnot]. set_solver.
Qed.

Lemma find_first_exists (df : list RawRecord) (r : RawRecord) :
  r ∈ df ->
  exists r0, List.find (fun x => bool_decide (NPI x = NPI r)) df = Some r0
             /\ NPI r0 = NPI r /\ r0 ∈ df.
Proof.
  intros Hin.
  destruct (List.find (fun x => bool_decide (NPI x = NPI r)) df) as [r0|] eqn:Hf.
  - apply find_some in Hf as Hs. destruct Hs as [Hin0 Hb].
    apply bool_decide_eq_true in Hb. exists r0. split; [reflexivity|].
    split; [assumption | now apply list_elem_of_In].
  - apply list_elem_of_In in Hin. apply (find_none _ _ Hf) in Hin.
    now apply bool_decide_eq_false in Hin.
Qed.

Lemma clean_data_eq (data : list RawRecord) :
  clean_data data
  = List.filter npi_valid
      (map (fun row => with_address row (standardize_address (Address row)))
         (drop_duplicates ∅ data)).
Proof. now destruct data. Qed.

(** Rows with an invalid NPI among the rows read so far make no
    difference to the valid rows that are kept. *)
Lemma drop_duplicates_invalid_seen (n : string) (df : list RawRecord) :
  Re.match_digits 10 n = false ->
  forall seen,
    List.filter npi_valid (drop_duplicates ({[ n ]} ∪ seen) df)
    = List.filter npi_valid (drop_duplicates seen df).
Proof.
  intros Hn. induction df as [|row rest IH]; intros seen; simpl; [reflexivity|].
  destruct (decide (NPI row = n)) as [E|E].
  - subst n. assert (Hv : npi_valid row = false) by exact Hn.
    rewrite (bool_decide_eq_true_2 (NPI row ∈ {[NPI row]} ∪ seen))
      by (apply elem_of_union; left; now apply elem_of_singleton).
    case_bool_decide as Hseen; [apply IH|].
    simpl. now rewrite Hv.
  - case_bool_decide as H1; case_bool_decide as H2.
    + apply IH.
    + apply elem_of_union in H1 as [H1 | H1]; [|contradiction].
      now apply elem_of_singleton in H1.
    + destruct H1. apply elem_of_union. now right.
    + simpl.
      replace ({[NPI row]} ∪ ({[n]} ∪ seen)) with ({[n]} ∪ ({[NPI row]} ∪ seen))
        by (rewrite !(assoc_L (∪)); f_equal; apply (comm_L (∪))).
      rewrite IH. reflexivity.
Qed.

(** Removing duplicates and keeping the valid rows can be done in either
    order. *)
Lemma filter_drop_duplicates (df : list RawRecord) :
  forall seen,
    List.filter npi_valid (drop_duplicates seen df)
    = drop_duplicates seen (List.filter npi_valid df).
Proof.
  induction df as [|row rest IH]; intros seen; simpl; [reflexivity|].
  destruct (npi_valid row) eqn:Hv; simpl.
  - case_bool_decide as Hseen; [apply IH|]. simpl. rewrite Hv. f_equal. apply IH.
  - case_bool_decide as Hseen; [apply IH|]. simpl. rewrite Hv.
    rewrite drop_duplicates_invalid_seen by exact Hv. apply IH.
Qed.

Lemma filter_with_address (g : string -> string) (df : list RawRecord) :
  List.filter npi_valid (map (fun row => with_address row (g (Address row))) df)
  = map (fun row => with_address row (g (Address row))) (List.filter npi_valid df).
Proof.
  induction df as [|row rest IH]; simpl; [reflexivity|].
  change (npi_valid (with_address row (g (Address row)))) with (npi_valid row).
  destruct (npi_valid row); simpl; now rewrite IH.
Qed.

(** C8. [clean_data] removes duplicates by NPI, keeping the first row of
    every NPI, then rewrites the addresses, then keeps the rows whose NPI
    has ten digits. Whether a row is valid depends on its NPI alone, so two
    rows with the same NPI are both valid or both invalid and removing
    duplicates first loses no valid NPI: for every row of the input with a
    valid NPI, the first row of the input with that NPI is in the output,
    with its address rewritten. Keeping the valid rows first and removing
    duplicates afterwards would give the same rows. No two rows of the
    output share an NPI. *)
Theorem C8_dedup_before_validation (data : list RawRecord) (r : RawRecord) :
  r ∈ data ->
  npi_valid r = true ->
  clean_data data
  = List.filter npi_valid
      (map (fun row => with_address row (standardize_address (Address row)))
         (drop_duplicates ∅ data))
  /\ clean_data data
     = map (fun row => with_address row (standardize_address (Address row)))
         (drop_duplicates ∅ (List.filter npi_valid data))
  /\ (exists r0,
         List.find (fun x => bool_decide (NPI x = NPI r)) data = Some r0
         /\ NPI r0 = NPI r
         /\ with_address r0 (standardize_address (Address r0)) ∈ clean_data data)
  /\ (forall r1 r2, NPI r1 = NPI r2 -> npi_valid r1 = npi_valid r2)
  /\ NoDup (map NPI (clean_data data)).
Proof.
  intros Hin Hvalid. split; [apply clean_data_eq|].
  split; [rewrite clean_data_eq, filter_with_address; f_equal; apply filter_drop_duplicates|].
  split; [|split].
  - destruct (find_first_exists data r Hin) as (r0 & Hfind & Hnpi & Hin0).
    exists r0. split; [assumption|]. split; [assumption|].
    rewrite clean_data_eq. apply list_elem_of_In, filter_In. split.
    + apply in_map_iff. exists r0. split; [reflexivity|].
      apply list_elem_of_In.
      apply (drop_duplicates_keeps_first data (NPI r)); [set_solver | assumption].
    + unfold npi_valid in *. cbn. now rewrite Hnpi.
  - intros r1 r2 Heq. unfold npi_valid. now rewrite Heq.
  - rewrite clean_data_eq.
    assert (Hsub : forall l : list RawRecord,
               NoDup (map NPI l) -> NoDup (map NPI (List.filter npi_valid l))).
    { induction l as [|x l IH]; simpl; [constructor|].
      intros Hnd. apply NoDup_cons in Hnd as [Hx Hl].
      destruct (npi_valid x); [|now apply IH].
      simpl. apply NoDup_cons. split; [|now apply IH].
      intros Hc. apply Hx. apply elem_of_map in Hc as (y & Hy & Hiny).
      apply elem_of_map. exists y. split; [assumption|].
      apply list_elem_of_In in Hiny. apply filter_In in Hiny as [Hiny _].
      now apply list_elem_of_In. }
    apply Hsub. rewrite map_map. cbn. apply drop_duplicates_NoDup.
Qed.

(** ** The finalizer: addresses *)

Lemma is_word_char_lower (c : ascii) :
  Re.is_word_char (Str.lower_ascii c) = Re.is_word_char c.
Proof. destruct c as [[] [] [] [] [] [] [] []]; reflexivity. Qed.

Lemma lower_eqb_word (p c : ascii) :
  Re.is_word_char p = true -> Re.is_word_char c = false ->
  Ascii.eqb (Str.lower_ascii p) (Str.lower_ascii c) = false.
Proof.
  intros Hp Hc. destruct (Ascii.eqb_spec (Str.lower_ascii p) (Str.lower_ascii c)) as [E|]; [|reflexivity].
  rewrite <- (is_word_char_lower p), E, is_word_char_lower in Hp. congruence.
Qed.

Section OneAbbreviation.

Variables pat repl : string.
Hypothesis pat_word : all_word pat = true.
Hypothesis pat_nonempty : pat <> EmptyString.

(** The literal and the closing boundary, from inside a word. *)
Lemma match_literal_word (tail : string) :
  ends_word tail ->
  forall p, all_word p = true ->
  forall prev w,
    all_word w = true ->
    (p = EmptyString -> Re.is_word prev = true) ->
    match Re.match_literal p prev (w +:+ tail) with
    | Some (last_read, rest) =>
        if Re.word_boundary last_read (Re.head rest) then Some rest else None
    | None => None
    end
    = if eq_ci w p then Some tail else None.
Proof.
  intros Htail p. induction p as [|a p IH]; intros Hp prev w Hw Hprev.
  - cbn [Re.match_literal]. unfold Re.word_boundary. rewrite Hprev by reflexivity.
    destruct w as [|b w].
    + change (EmptyString +:+ tail) with tail. unfold ends_word in Htail.
      now rewrite Htail.
    + cbn [all_word] in Hw. apply andb_true_iff in Hw as [Hb _].
      change (String b w +:+ tail) with (String b (w +:+ tail)).
      cbn [Re.head Re.is_word]. now rewrite Hb.
  - cbn [all_word] in Hp. apply andb_true_iff in Hp as [Ha Hp].
    destruct w as [|b w]; app_step; cbn [Re.match_literal].
    + destruct tail as [|c t]; [reflexivity|].
      unfold ends_word in Htail. cbn [Re.head Re.is_word] in Htail.
      now rewrite (lower_eqb_word a c Ha Htail).
    + cbn [all_word] in Hw. apply andb_true_iff in Hw as [Hb Hw].
      unfold eq_ci. cbn [Str.lower String.eqb].
      rewrite (Ascii.eqb_sym (Str.lower_ascii b)).
      destruct (Ascii.eqb (Str.lower_ascii a) (Str.lower_ascii b)); [|reflexivity].
      apply (IH Hp (Some b) w Hw). intros _. exact Hb.
Qed.

Lemma match_word_at_word_start (tail : string) (prev : option ascii) (a : ascii) (w : string) :
  ends_word tail ->
  Re.is_word prev = false ->
  all_word (String a w) = true ->
  Re.match_word pat prev (String a w +:+ tail)
  = if eq_ci (String a w) pat then Some tail else None.
Proof.
  intros Htail Hprev Hw. unfold Re.match_word.
  assert (Hb : Re.word_boundary prev (Re.head (String a w +:+ tail)) = true).
  { unfold Re.word_boundary. rewrite Hprev.
    app_step. cbn [Re.head Re.is_word all_word] in *.
    now apply andb_true_iff in Hw as [-> _]. }
  rewrite Hb. apply (match_literal_word tail Htail pat pat_word prev (String a w) Hw).
  intros E. now destruct pat_nonempty.
Qed.

(** No match starts at a separator. *)
Lemma match_word_at_separator (prev : option ascii) (c : ascii) (t : string) :
  Re.is_word_char c = false ->
  Re.match_word pat prev (String c t) = None.
Proof.
  intros Hc. unfold Re.match_word.
  destruct (Re.word_boundary prev (Re.head (String c t))); [|reflexivity].
  destruct pat as [|a p]; [now destruct pat_nonempty|].
  pose proof pat_word as Hpw. cbn [all_word] in Hpw. apply andb_true_iff in Hpw as [Ha _].
  cbn [Re.match_literal]. now rewrite (lower_eqb_word a c Ha Hc).
Qed.

Lemma sub_from_behind_word (tail : string) (prev : option ascii) :
  ends_word tail ->
  Re.sub_from pat repl 0 prev tail = sub_tail pat repl tail.
Proof.
  intros Htail. destruct tail as [|c t]; [reflexivity|].
  unfold ends_word in Htail. cbn [Re.head Re.is_word] in Htail.
  cbn [Re.sub_from sub_tail]. now rewrite (match_word_at_separator prev c t Htail).
Qed.

(** Inside a word nothing matches. *)
Lemma sub_from_inside_word (tail : string) :
  ends_word tail ->
  forall w prev,
    Re.is_word prev = true -> all_word w = true ->
    Re.sub_from pat repl 0 prev (w +:+ tail) = w +:+ sub_tail pat repl tail.
Proof.
  intros Htail w. induction w as [|b w IH]; intros prev Hprev Hw.
  - now apply sub_from_behind_word.
  - cbn [all_word] in Hw. apply andb_true_iff in Hw as [Hb Hw].
    app_step. cbn [Re.sub_from].
    assert (Hm : Re.match_word pat prev (String b (w +:+ tail)) = None).
    { unfold Re.match_word, Re.word_boundary. rewrite Hprev.
      cbn [Re.head Re.is_word]. now rewrite Hb. }
    rewrite Hm. f_equal. now apply IH.
Qed.

(** Passing over the rest of a matched word. *)
Lemma sub_from_skip (tail : string) :
  ends_word tail ->
  forall w prev,
    Re.sub_from pat repl (String.length w) prev (w +:+ tail) = sub_tail pat repl tail.
Proof.
  intros Htail w. induction w as [|b w IH]; intros prev.
  - now apply sub_from_behind_word.
  - app_step. cbn [String.length Re.sub_from]. apply IH.
Qed.

Lemma append_empty (s : string) : s +:+ EmptyString = s.
Proof. induction s as [|c s IH]; [reflexivity | app_step; now rewrite IH]. Qed.

Lemma lower_length (s : string) : String.length (Str.lower s) = String.length s.
Proof. induction s as [|c s IH]; simpl; [reflexivity | now rewrite IH]. Qed.

Lemma eq_ci_length (a b : string) : eq_ci a b = true -> String.length a = String.length b.
Proof.
  unfold eq_ci. intros H. apply String.eqb_eq in H.
  now rewrite <- (lower_length a), H, lower_length.
Qed.

(** One word and what follows it. *)
Lemma sub_from_word (tail : string) (prev : option ascii) (w : string) :
  ends_word tail ->
  Re.is_word prev = false ->
  all_word w = true ->
  Re.sub_from pat repl 0 prev (w +:+ tail) = expand_one pat repl w +:+ sub_tail pat repl tail.
Proof.
  intros Htail Hprev Hw. unfold expand_one. destruct w as [|a w].
  - assert (E : eq_ci "" pat = false).
    { unfold eq_ci. destruct pat; [now destruct pat_nonempty | reflexivity]. }
    rewrite E. now apply sub_from_behind_word.
  - app_step. cbn [Re.sub_from].
    change (String a (w +:+ tail)) with (String a w +:+ tail).
    rewrite (match_word_at_word_start tail prev a w Htail Hprev Hw).
    destruct (eq_ci (String a w) pat) eqn:E.
    + apply eq_ci_length in E. cbn in E. rewrite <- E. cbn [Nat.sub].
      rewrite Nat.sub_0_r. now rewrite (sub_from_skip tail Htail).
    + cbn [all_word] in Hw. apply andb_true_iff in Hw as [Ha Hw].
      app_step. f_equal. now apply sub_from_inside_word.
Qed.

Lemma sub_from_render (rest : list (ascii * string)) :
  separated rest ->
  forall w prev,
    Re.is_word prev = false ->
    all_word w = true ->
    Re.sub_from pat repl 0 prev (render w rest) = render (expand_one pat repl w) (map_words (expand_one pat repl) rest).
Proof.
  induction 1 as [|[c w'] rest [Hc Hw'] Hrest IH]; intros w prev Hprev Hw; cbn [render map_words map].
  - rewrite <- (append_empty w) at 1.
    rewrite (sub_from_word EmptyString prev w); try assumption; [|reflexivity].
    cbn [sub_tail]. apply append_empty.
  - cbn [fst snd] in *.
    rewrite (sub_from_word (String c (render w' rest)) prev w); try assumption.
    cbn [sub_tail]. do 2 f_equal. apply IH; [cbn; assumption | assumption].
Qed.

Lemma sub_word_render (w : string) (rest : list (ascii * string)) :
  all_word w = true ->
  separated rest ->
  Re.sub_word pat repl (render w rest) = render (expand_one pat repl w) (map_words (expand_one pat repl) rest).
Proof. intros Hw Hrest. now apply sub_from_render. Qed.

End OneAbbreviation.

Lemma expand_one_word (pat repl w : string) :
  all_word repl = true -> all_word w = true -> all_word (expand_one pat repl w) = true.
Proof. intros Hr Hw. unfold expand_one. now destruct (eq_ci w pat). Qed.

Lemma map_words_separated (e : string -> string) (rest : list (ascii * string)) :
  (forall w, all_word w = true -> all_word (e w) = true) ->
  separated rest -> separated (map_words e rest).
Proof.
  intros He. induction 1 as [|[c w] rest [Hc Hw] Hrest IH]; cbn; constructor.
  - cbn in *. split; [assumption | now apply He].
  - exact IH.
Qed.

(** The three replacements, one after the other, on one word. *)
Lemma expand_three (w : string) :
  expand_one "BLVD" "Boulevard" (expand_one "AVE" "Avenue" (expand_one "ST" "Street" w))
  = expand_word w.
Proof.
  unfold expand_word, expand_one.
  destruct (eq_ci w "ST") eqn:E1; [reflexivity|].
  destruct (eq_ci w "AVE") eqn:E2; [reflexivity|].
  reflexivity.
Qed.

Lemma map_words_three (rest : list (ascii * string)) :
  map_words (expand_one "BLVD" "Boulevard")
    (map_words (expand_one "AVE" "Avenue") (map_words (expand_one "ST" "Street") rest))
  = map_words expand_word rest.
Proof.
  unfold map_words. rewrite !map_map. apply map_ext. intros [c w]. cbn.
  now rewrite expand_three.
Qed.

Lemma standardize_address_render (w : string) (rest : list (ascii * string)) :
  all_word w = true ->
  separated rest ->
  standardize_address (render w rest) = render (expand_word w) (map_words expand_word rest).
Proof.
  intros Hw Hrest. unfold standardize_address.
  rewrite (sub_word_render "ST" "Street") by (assumption || reflexivity || discriminate).
  rewrite (sub_word_render "AVE" "Avenue");
    [| reflexivity | discriminate
     | now apply expand_one_word
     | apply map_words_separated; [intros; now apply expand_one_word | assumption] ].
  rewrite (sub_word_render "BLVD" "Boulevard");
    [| reflexivity | discriminate
     | repeat apply expand_one_word; (reflexivity || assumption)
     | repeat (apply map_words_separated; [intros; now apply expand_one_word|]);
       assumption ].
  now rewrite expand_three, map_words_three.
Qed.

Lemma clean_data_address (data : list RawRecord) (r : RawRecord) :
  r ∈ clean_data data ->
  exists r0, r0 ∈ data /\ r = with_address r0 (standardize_address (Address r0)).
Proof.
  rewrite clean_data_eq. intros H.
  apply list_elem_of_In, filter_In in H as [H _].
  apply in_map_iff in H as (r0 & <- & H0).
  apply list_elem_of_In, drop_duplicates_elem in H0 as [H0 _].
  now exists r0.
Qed.

Lemma render_cons (c : ascii) (w : string) (rest : list (ascii * string)) :
  render (String c w) rest = String c (render w rest).
Proof. now destruct rest as [|[c' w'] rest]. Qed.

(** Every text is a word followed by separators and words. *)
Lemma render_total (a : string) :
  exists w rest, all_word w = true /\ separated rest /\ a = render w rest.
Proof.
  induction a as [|c a (w & rest & Hw & Hrest & ->)].
  - exists EmptyString, []. repeat split. constructor.
  - destruct (Re.is_word_char c) eqn:Hc.
    + exists (String c w), rest. split; [cbn [all_word]; now rewrite Hc|].
      split; [assumption | now rewrite render_cons].
    + exists EmptyString, ((c, w) :: rest). split; [reflexivity|].
      split; [now constructor | reflexivity].
Qed.

(** C9, amended. [clean_data] rewrites the address of every row it
    keeps: every word of the address that is ST, AVE or BLVD, in any mix of
    upper and lower case, becomes Street, Avenue or Boulevard, wherever in
    the address the word stands; every other word and every character
    between words stays as it is, so that these letters inside a longer
    word are not touched. The address 123 MAIN ST becomes
    123 MAIN Street. *)
Theorem C9_whole_words_anywhere (w : string) (rest : list (ascii * string)) :
  all_word w = true ->
  separated rest ->
  standardize_address (render w rest)
  = render (expand_word w) (map_words expand_word rest)
  /\ (forall a,
         exists w' rest',
           all_word w' = true /\ separated rest' /\ a = render w' rest'
           /\ standardize_address a
              = render (expand_word w') (map_words expand_word rest'))
  /\ standardize_address "123 MAIN ST" = "123 MAIN Street"
  /\ (forall data r,
         r ∈ clean_data data ->
         exists r0, r0 ∈ data /\ r = with_address r0 (standardize_address (Address r0))).
Proof.
  intros Hw Hrest. split; [now apply standardize_address_render|].
  split; [|split; [reflexivity | apply clean_data_address]].
  intros a. destruct (render_total a) as (w' & rest' & Hw' & Hrest' & ->).
  exists w', rest'. repeat split; try assumption.
  now apply standardize_address_render.
Qed.

(** * The program on the simulated directory *)

Lemma extract_profile_data_recoveries {Env : Type} {browser : Browser Env}
    (url : string) (w : World Env) :
  recoveries (snd (extract_profile_data url w)) = recoveries w.
Proof.
  unfold extract_profile_data, bind.
  destruct (driver_get_run url w) as (r & w1 & Hg & Ht & _). rewrite Hg.
  assert (H1 : recoveries w1 = recoveries w).
  { rewrite (recoveries_app w w1 _ Ht). cbn. lia. }
  destruct r as [[]|e]; [|exact H1].
  unfold env_call. destruct (drv_profile url (env w1)) as [[fields|e] e1]; exact H1.
Qed.

(** The scenario of C5 on the simulated directory. *)
Lemma C5_retry_policy_witness :
  fst (_retry_operation 3 (extract_profile_data Sim.profile_url) (Sim.start Sim.flaky None))
  = Return (Some (mkRecord Sim.profile_url "1234567890" "123 MAIN ST" []))
  /\ recoveries
       (snd (_retry_operation 3 (extract_profile_data Sim.profile_url)
               (Sim.start Sim.flaky None)))
     = 2%nat.
Proof.
  destruct (C5_retry_policy 3 RawRecord (extract_profile_data Sim.profile_url))
    as (_ & _ & _ & Hscenario).
  pose (w0 := Sim.start Sim.flaky None).
  pose (w1 := snd (extract_profile_data Sim.profile_url w0)).
  pose (w1' := snd (_reinitialize_browser w1)).
  pose (w2 := snd (extract_profile_data Sim.profile_url w1')).
  pose (w2' := snd (_reinitialize_browser w2)).
  pose (w3 := snd (extract_profile_data Sim.profile_url w2')).
  destruct (Hscenario eq_refl w0 "Message: invalid session id" w1 w1'
              "disconnected: not connected to DevTools" w2 w2'
              (mkRecord Sim.profile_url "1234567890" "123 MAIN ST" []) w3)
    as [Hres Hrec]; try reflexivity.
  - intros w. apply extract_profile_data_recoveries.
  - fold w0. rewrite Hres. split; [reflexivity|]. cbn [snd]. rewrite Hrec. reflexivity.
Defined.

(** One match for the first initial Q: the probe result is returned. *)
Lemma C3_within_cap_is_base_case_witness :
  resolve Sim.urlencode 3 (mkFilter "Q" "" "" "") (Sim.start Sim.quiet None)
  = (Return ["https://npidb.org/npi/7"],
     snd (probe Sim.urlencode 3 (mkFilter "Q" "" "" "") (Sim.start Sim.quiet None))).
Proof.
  apply (proj1 (C3_within_cap_is_base_case Sim.urlencode 3 (mkFilter "Q" "" "" ""))).
  vm_compute. reflexivity.
Defined.

(** C4 as stated fails: the first initial A has more matches than the
    cap, its children for the last initials A and B return the same URL,
    and [recursive_search] returns that URL twice, where a union without
    duplicates holds it once. *)
Lemma C4_counterexample :
  fst (resolve Sim.urlencode 3 (mkFilter "A" "" "" "") (Sim.start Sim.overlapping None))
  = Return ["https://npidb.org/npi/1"; "https://npidb.org/npi/1"]
  /\ fst (resolve Sim.urlencode 3 (mkFilter "A" "A" "" "")
            (Sim.start Sim.overlapping None))
     = Return ["https://npidb.org/npi/1"]
  /\ fst (resolve Sim.urlencode 3 (mkFilter "A" "B" "" "")
            (Sim.start Sim.overlapping None))
     = Return ["https://npidb.org/npi/1"]
  /\ ~ NoDup ["https://npidb.org/npi/1"; "https://npidb.org/npi/1"].
Proof.
  split; [vm_compute; reflexivity|].
  split; [vm_compute; reflexivity|].
  split; [vm_compute; reflexivity|].
  intros H. apply NoDup_cons in H as [H _]. apply H, elem_of_cons. now left.
Qed.

Lemma C4_over_limit_concatenates_children_witness :
  resolve Sim.urlencode 3 (mkFilter "A" "" "" "") (Sim.start Sim.overlapping None)
  = resolve_all Sim.urlencode 3
      (map (fun l => mkFilter "A" l "" "") (Str.chars ALPHABET))
      (snd (probe Sim.urlencode 3 (mkFilter "A" "" "" "") (Sim.start Sim.overlapping None))).
Proof.
  refine (proj1 (C4_over_limit_concatenates_children Sim.urlencode 3
                   (mkFilter "A" "" "" "") (Sim.start Sim.overlapping None)
                   _ (Some None) _ _ _ _)).
  - vm_compute. reflexivity.
  - now right.
  - reflexivity.
Defined.

(** The extensions AA to AZ are searched in turn and AB has one match;
    the direct query for AA, BB, CC in CA keeps 30 of 31 links. *)
Lemma C6_second_characters_then_first_30_witness :
  fst (resolve Sim.urlencode 3 (mkFilter "A" "B" "C" "CA") (Sim.start Sim.dense None))
  = Return ["https://npidb.org/npi/5"]
  /\ fst (resolve Sim.urlencode 3 (mkFilter "AA" "BB" "CC" "CA")
            (Sim.start Sim.crowded None))
     = Return (map (fun h => "https://npidb.org" +:+ h) (take 30 (Sim.many 31))).
Proof.
  split.
  - pose (w := Sim.start Sim.dense None).
    pose (w1 := snd (probe Sim.urlencode 3 (mkFilter "A" "B" "C" "CA") w)).
    pose (cs := map (fun c => mkFilter ("A" +:+ c) "B" "C" "CA") (Str.chars ALPHABET)).
    pose (w2 := snd (extend_each [] cs (resolve Sim.urlencode 3) w1)).
    destruct (in_turn_resolve_all Sim.urlencode 3 cs [] w1 ["https://npidb.org/npi/5"] w2)
      as (rs & Hrs & Hl); [vm_compute; reflexivity|].
    destruct (C6_second_characters_then_first_30 Sim.urlencode 3 "A" "B" "C" "CA"
                w w1 (Some None)) as (Hfirst & _).
    + vm_compute. reflexivity.
    + now right.
    + reflexivity.
    + reflexivity.
    + reflexivity.
    + destruct (Hfirst eq_refl) as [Hrun _].
      fold w. rewrite (Hrun rs w2 Hrs). cbn [fst]. now rewrite Hl.
  - pose (w := Sim.start Sim.crowded None).
    pose (w1 := snd (probe Sim.urlencode 3 (mkFilter "AA" "BB" "CC" "CA") w)).
    pose (w2 := snd (driver_get (direct_url Sim.urlencode "AA" "BB" "CC" "CA") w1)).
    pose (w3 := snd (time_sleep 5 w2)).
    destruct (C6_second_characters_then_first_30 Sim.urlencode 3 "AA" "BB" "CC" "CA"
                w w1 (Some None)) as (_ & _ & _ & Hlast & _).
    + vm_compute. reflexivity.
    + now right.
    + reflexivity.
    + reflexivity.
    + reflexivity.
    + destruct Hlast as [_ Hpage]; [discriminate | discriminate | discriminate |].
      fold w.
      rewrite (Hpage w2 w3 (Sim.page_of (Sim.many 31)) w3);
        [vm_compute; reflexivity | vm_compute; reflexivity | reflexivity
         | vm_compute; reflexivity].
Defined.

(** The direct query of the last branch fails and the empty list is
    returned. *)
Lemma C10_last_branch_swallows_errors_witness :
  fst (resolve Sim.urlencode 3 (mkFilter "AA" "BB" "CC" "CA") (Sim.start Sim.broken None))
  = Return [].
Proof.
  pose (w0 := Sim.start Sim.broken None).
  pose (w1 := snd (probe Sim.urlencode 3 (mkFilter "AA" "BB" "CC" "CA") w0)).
  pose (w2 := snd (driver_get (direct_url Sim.urlencode "AA" "BB" "CC" "CA") w1)).
  assert (Hprobe : probe Sim.urlencode 3 (mkFilter "AA" "BB" "CC" "CA") w0
                   = (Return (Some None), w1)) by (vm_compute; reflexivity).
  assert (Hget : driver_get (direct_url Sim.urlencode "AA" "BB" "CC" "CA") w1
                 = (Raise "timeout", w2)) by (vm_compute; reflexivity).
  pose proof (C10_last_branch_swallows_errors Sim.urlencode 3 "AA" "BB" "CC" "CA"
                w0 w1 (Some None) Hprobe (or_intror eq_refl) eq_refl eq_refl eq_refl
                ltac:(discriminate) ltac:(discriminate) ltac:(discriminate))
    as (_ & Hraise & _).
  fold w0. now rewrite (Hraise "timeout" w2 Hget).
Defined.

(** The second run over an output that holds the only URL discovered. *)
Lemma C7_resume_appends_nothing_witness :
  urls_to_scrape_of ["https://npidb.org/npi/1"; "https://npidb.org/npi/1"]
    (read_scraped_urls Sim.isna (Some Sim.earlier_output))
  = [].
Proof.
  refine (proj1 (proj2 (C7_resume_appends_nothing Sim.urlencode Sim.isna 3
                          (mkFilter "A" "" "" "")
                          (Sim.start Sim.overlapping (Some Sim.earlier_output))
                          (snd (scrape_search_results Sim.urlencode 3 (mkFilter "A" "" "" "")
                                  (Sim.start Sim.overlapping (Some Sim.earlier_output))))
                          ["https://npidb.org/npi/1"; "https://npidb.org/npi/1"] _ _))).
  - vm_compute. reflexivity.
  - intros u Hu.
    assert (u = Sim.profile_url) as ->.
    { apply elem_of_cons in Hu as [-> | Hu]; [reflexivity|].
      apply elem_of_cons in Hu as [-> | Hu]; [reflexivity|].
      now apply elem_of_nil in Hu. }
    refine (bool_decide_unpack _ _). vm_compute. exact I.
Defined.

Lemma C8_dedup_before_validation_witness :
  mkRecord "https://npidb.org/npi/1" "1234567890" "1 A Street" [] ∈ clean_data Sim.three_rows.
Proof.
  destruct (C8_dedup_before_validation Sim.three_rows
              (mkRecord "https://npidb.org/npi/2" "1234567890" "2 B AVE" []))
    as (_ & _ & (r0 & Hfind & _ & Hin) & _).
  - apply elem_of_cons. right. apply elem_of_cons. now left.
  - reflexivity.
  - cbn in Hfind. injection Hfind as <-. exact Hin.
Defined.

(** C9 as stated fails: the word ST is rewritten where it is not the
    last word of the address. *)
Lemma C9_counterexample :
  standardize_address "12 ST JOHNS RD" = "12 Street JOHNS RD"
  /\ standardize_address "12 ST JOHNS RD" <> "12 ST JOHNS RD"
  /\ clean_data [mkRecord "u" "1234567890" "12 ST JOHNS RD" []]
     = [mkRecord "u" "1234567890" "12 Street JOHNS RD" []].
Proof.
  split; [reflexivity|]. split; [|reflexivity].
  intros H. vm_compute in H. discriminate H.
Qed.

Lemma C9_whole_words_anywhere_witness :
  standardize_address "9 st EAST Ave"
  = "9 Street EAST Avenue".
Proof.
  exact (proj1 (C9_whole_words_anywhere "9"
                  [(" "%char, "st"); (" "%char, "EAST"); (" "%char, "Ave")]
                  eq_refl
                  ltac:(repeat constructor))).
Defined.

(** C1 fails on the code: with the first initial fixed, as in [main], the
    discovered list is returned as it is. Here the same URL is discovered
    under two last initials; it is fetched twice and saved twice. *)
Theorem C1_fixed_first_initial_fetches_twice :
  fst (scrape_search_results Sim.urlencode 3 (mkFilter "A" "" "" "")
         (Sim.start Sim.overlapping None))
  = Return [Sim.profile_url; Sim.profile_url]
  /\ map URL
       (rows_of (csv_file (snd (scrape_all Sim.urlencode Sim.isna 3 (mkFilter "A" "" "" "")
                                  (Sim.start Sim.overlapping None)))))
     = [Sim.profile_url; Sim.profile_url]
  /\ count_occ Event_eq_dec
       (trace (snd (scrape_all Sim.urlencode Sim.isna 3 (mkFilter "A" "" "" "")
                      (Sim.start Sim.overlapping None))))
       (EvGet Sim.profile_url)
     = 2%nat.
Proof. split; [|split]; vm_compute; reflexivity. Qed.

(** C2 fails on the code: the root filter asks for the first initial A in
    the region CA, which has more matches than the cap; the children are
    queried by first and last initial alone, the region is gone. *)
Theorem C2_narrowing_clears_region :
  children_of (mkFilter "A" "" "" "CA")
  = Some (map (fun l => mkFilter "A" l "" "") (Str.chars ALPHABET))
  /\ visited (snd (scrape_search_results Sim.urlencode 3 (mkFilter "A" "" "" "CA")
                     (Sim.start Sim.regional None)))
     = "https://npidb.org/npi-lookup/?fname=A&state=ca"
       :: map (fun l => "https://npidb.org/npi-lookup/?fname=A&lname=" +:+ l)
            (Str.chars ALPHABET).
Proof. split; [reflexivity | vm_compute; reflexivity]. Qed.

(** * Further properties of the runner *)

Section RunnerFacts.

Context {Env : Type} {browser : Browser Env}.
Variable max_retries : Z.

Local Abbreviation M := (M Env).
Local Abbreviation World := (World Env).

Lemma retry_at_never_none {A} (operation : M A) (k : nat) :
  forall attempt w w1,
    attempt + Z.of_nat (S k) = max_retries ->
    retry_at max_retries operation attempt w <> (Return None, w1).
Proof.
  induction k as [|k IH]; intros attempt w w1 Hk.
  - rewrite retry_at_unfold by lia. rewrite retry_loop_cons.
    destruct (operation w) as [[v|e] w2]; [discriminate|].
    destruct (Z.ltb_spec attempt (max_retries - 1)); [lia|].
    rewrite andb_false_r. discriminate.
  - rewrite retry_at_unfold by lia. rewrite retry_loop_cons.
    destruct (operation w) as [[v|e] w2]; [discriminate|].
    fold (retry_at max_retries operation (attempt + 1)).
    destruct (Z.ltb_spec attempt (max_retries - 1)); [|lia].
    destruct (is_session_error e); cbn [andb]; unfold bind.
    + destruct (_reinitialize_browser w2) as [[[]|e'] w3]; [|discriminate].
      apply IH. lia.
    + cbn. apply IH. lia.
Qed.

(** X1. With at least one attempt allowed the runner never falls out of
    its loop: it returns a value that the operation returned, in the state
    the operation left, or it raises. *)
Theorem X1_runner_returns_a_value_or_raises {A} (operation : M A) (w : World) :
  0 < max_retries ->
  (exists v w0 w1,
      _retry_operation max_retries operation w = (Return (Some v), w1)
      /\ operation w0 = (Return v, w1))
  \/ (exists e w1, _retry_operation max_retries operation w = (Raise e, w1)).
Proof.
  intros Hmax.
  destruct (_retry_operation max_retries operation w) as [[[v|]|e] w1] eqn:Hr.
  - left. unfold _retry_operation in Hr.
    apply retry_loop_return_inv in Hr as [w0 Hop]. now exists v, w0, w1.
  - exfalso. rewrite retry_operation_at_0 in Hr.
    apply (retry_at_never_none operation (Z.to_nat (max_retries - 1)) 0 w w1); [lia | exact Hr].
  - right. now exists e, w1.
Qed.

Lemma sleeps_time_sleep (seconds : Z) (w : World) :
  sleeps (snd (time_sleep seconds w)) = sleeps w ++ [seconds].
Proof.
  unfold sleeps, time_sleep, log_event. cbn [snd with_env trace].
  now rewrite flat_map_app.
Qed.

Lemma sum_app (l1 l2 : list Z) :
  fold_right Z.add 0 (l1 ++ l2) = fold_right Z.add 0 l1 + fold_right Z.add 0 l2.
Proof. induction l1 as [|n l1 IH]; cbn; [reflexivity|]. rewrite IH. lia. Qed.

Lemma sum_powers (k : nat) :
  forall attempt,
    0 <= attempt ->
    fold_right Z.add 0 (map (fun i => 2 ^ i) (seqZ attempt (Z.of_nat k)))
    = 2 ^ (attempt + Z.of_nat k) - 2 ^ attempt.
Proof.
  induction k as [|k IH]; intros attempt Hpos.
  - replace (attempt + Z.of_nat 0) with attempt by lia.
    rewrite Z.sub_diag. reflexivity.
  - rewrite (seqZ_cons attempt (Z.of_nat (S k))) by lia. cbn [map fold_right].
    replace (Z.pred (Z.of_nat (S k))) with (Z.of_nat k) by lia.
    replace (Z.succ attempt) with (attempt + 1) by lia.
    rewrite IH by lia.
    replace (attempt + Z.of_nat (S k)) with (attempt + 1 + Z.of_nat k) by lia.
    rewrite (Z.pow_add_r 2 attempt 1) by lia. lia.
Qed.

Lemma retry_at_backoff {A} (operation : M A) (e : string) (k : nat) :
  (forall w, exists w1, operation w = (Raise e, w1) /\ sleeps w1 = sleeps w) ->
  is_session_error e = false ->
  forall attempt w,
    0 <= attempt ->
    attempt + Z.of_nat (S k) = max_retries ->
    exists w1,
      retry_at max_retries operation attempt w = (Raise e, w1)
      /\ sleeps w1 = sleeps w ++ map (fun i => 2 ^ i) (seqZ attempt (Z.of_nat k)).
Proof.
  intros Hop Hs. induction k as [|k IH]; intros attempt w Hpos Hk.
  - destruct (Hop w) as (w1 & H1 & Ht). exists w1.
    split; [apply retry_at_final; [lia | exact H1]|].
    cbn. now rewrite app_nil_r.
  - destruct (Hop w) as (w1 & H1 & Ht).
    rewrite (retry_at_transient max_retries operation attempt w w1 e) by (assumption || lia).
    unfold bind.
    pose proof (sleeps_time_sleep (2 ^ attempt) w1) as Hsl.
    destruct (time_sleep (2 ^ attempt) w1) as [[[]|e'] w1'] eqn:Hts; [|discriminate Hts].
    cbn [snd] in Hsl.
    destruct (IH (attempt + 1) w1') as (w2 & H2 & Ht2); [lia | lia |].
    exists w2. split; [exact H2|].
    rewrite Ht2, Hsl, Ht.
    rewrite (seqZ_cons attempt (Z.of_nat (S k))) by lia.
    cbn [map]. rewrite <- app_assoc. cbn [app].
    replace (Z.succ attempt) with (attempt + 1) by lia.
    now replace (Z.pred (Z.of_nat (S k))) with (Z.of_nat k) by lia.
Qed.

(** X2. An operation that fails every time with an error that is not a
    session loss, and does not sleep when it fails, is tried [max_retries]
    times: the runner sleeps 1, 2, 4, ... seconds between the attempts,
    [2 ^ (max_retries - 1) - 1] seconds in all, and then raises the error;
    there is no sleep after the last attempt. *)
Theorem X2_backoff_schedule {A} (operation : M A) (e : string) (w : World) :
  0 < max_retries ->
  (forall w0, exists w1, operation w0 = (Raise e, w1) /\ sleeps w1 = sleeps w0) ->
  is_session_error e = false ->
  exists w1,
    _retry_operation max_retries operation w = (Raise e, w1)
    /\ sleeps w1 = sleeps w ++ map (fun i => 2 ^ i) (seqZ 0 (max_retries - 1))
    /\ slept w1 = slept w + (2 ^ (max_retries - 1) - 1).
Proof.
  intros Hmax Hop Hs. rewrite retry_operation_at_0.
  destruct (retry_at_backoff operation e (Z.to_nat (max_retries - 1)) Hop Hs 0 w)
    as (w1 & H1 & Ht); [lia | lia |].
  rewrite Z2Nat.id in Ht by lia.
  exists w1. split; [exact H1|]. split; [exact Ht|].
  unfold slept. rewrite Ht, sum_app.
  rewrite <- (Z2Nat.id (max_retries - 1)) at 1 by lia.
  rewrite sum_powers by lia. rewrite Z2Nat.id by lia.
  rewrite Z.add_0_l. reflexivity.
Qed.

End RunnerFacts.

(** * Further properties of the orchestrator *)

Section OrchestratorFacts.

Context {Env : Type} {browser : Browser Env}.
Variable urlencode : list (string * string) -> string.
Variable isna : string -> bool.
Variable max_retries : Z.

Local Abbreviation M := (M Env).
Local Abbreviation World := (World Env).

Lemma keeps_extract_profile_data (url : string) :
  keeps_csv (extract_profile_data url : M RawRecord).
Proof.
  unfold extract_profile_data.
  apply keeps_bind; [apply keeps_driver_get|]. intros _.
  apply keeps_bind; [apply keeps_env_call|]. intros fields. apply keeps_ret.
Qed.

Lemma extract_profile_data_URL (url : string) (w w1 : World) (d : RawRecord) :
  extract_profile_data url w = (Return d, w1) -> URL d = url.
Proof.
  unfold extract_profile_data, bind.
  destruct (driver_get url w) as [[[]|e] w2]; [|discriminate].
  destruct (env_call (drv_profile url) w2) as [[fields|e] w3]; [|discriminate].
  now intros [= <- _].
Qed.

(** One round of the loop of [scrape_all]: the URL is counted as failed and
    the file stays as it is, or one row for this URL is appended and the
    URL is counted as successful. The round itself raises nothing. *)
Lemma process_url_cases (total idx : Z) (st : LoopState) (url : string) (w : World)
    (ledger : Ledger) :
  csv_file w = Some ledger ->
  exists st' w',
    process_url max_retries total st idx url w = (Return st', w')
    /\ ((csv_file w' = Some ledger
         /\ successful_count st' = successful_count st
         /\ failed_count st' = failed_count st + 1)
        \/ (exists d,
               URL d = url
               /\ csv_file w' = Some (mkLedger (header ledger) (rows ledger ++ [d]))
               /\ successful_count st' = successful_count st + 1
               /\ failed_count st' = failed_count st)).
Proof.
  intros Hcsv. unfold process_url.
  pose proof (keeps_retry_loop max_retries (extract_profile_data url)
                (seqZ 0 max_retries) (keeps_extract_profile_data url) w) as Hk.
  fold (_retry_operation max_retries (extract_profile_data url)) in Hk.
  destruct (_retry_operation max_retries (extract_profile_data url) w)
    as [[[d|]|e] w1] eqn:Hr; cbn [snd] in Hk; rewrite Hcsv in Hk.
  - assert (Hurl : URL d = url).
    { unfold _retry_operation in Hr. apply retry_loop_return_inv in Hr as [w0 Hop].
      now apply extract_profile_data_URL in Hop. }
    unfold bind, append_row. rewrite Hk.
    destruct ((successful_count st + 1) mod 10 =? 0); cbn;
      (do 2 eexists; split; [reflexivity|]; right; exists d; cbn; auto).
  - do 2 eexists. split; [reflexivity|]. left. cbn. auto.
  - do 2 eexists. split; [reflexivity|]. left. cbn. auto.
Qed.

Lemma scrape_loop_run (total : Z) (urls : list string) :
  forall st idx w ledger,
    csv_file w = Some ledger ->
    exists st' w' new,
      scrape_loop max_retries total st idx urls w = (Return st', w')
      /\ csv_file w' = Some (mkLedger (header ledger) (rows ledger ++ new))
      /\ map URL new `sublist_of` urls
      /\ Z.of_nat (length new) = successful_count st' - successful_count st
      /\ successful_count st' + failed_count st'
         = successful_count st + failed_count st + Z.of_nat (length urls)
      /\ failed_count st <= failed_count st'
      /\ (failed_count st' = failed_count st -> map URL new = urls).
Proof.
  induction urls as [|url urls IH]; intros st idx w ledger Hcsv.
  - exists st, w, []. cbn. rewrite app_nil_r. destruct ledger.
    repeat split; try lia; try assumption. constructor.
  - cbn [scrape_loop]. unfold bind.
    destruct (process_url_cases total idx st url w ledger Hcsv)
      as (st1 & w1 & Hp & [(Hc & Hs & Hf) | (d & Hu & Hc & Hs & Hf)]); rewrite Hp.
    + destruct (IH st1 (idx + 1) w1 ledger Hc)
        as (st' & w' & new & Hl & Hc' & Hsub & Hlen & Hsum & Hmono & Hall).
      exists st', w', new. split; [exact Hl|]. split; [exact Hc'|].
      split; [now apply sublist_cons|].
      cbn [length]. repeat split; try lia.
    + destruct (IH st1 (idx + 1) w1 _ Hc)
        as (st' & w' & new & Hl & Hc' & Hsub & Hlen & Hsum & Hmono & Hall).
      exists st', w', (d :: new). split; [exact Hl|].
      cbn [header rows] in Hc'. rewrite <- app_assoc in Hc'. split; [exact Hc'|].
      cbn [map]. rewrite Hu. split; [now apply sublist_skip|].
      cbn [length]. repeat split; try lia.
      intros Heq. f_equal. apply Hall. lia.
Qed.

(** X3. Once discovery has returned, [scrape_all] returns as well: no
    failure of a single profile ends the run. moms.csv keeps its header (a
    new file gets the 25 column names) and its rows, and the rows added are
    rows for URLs of the work list, in the order of the work list. *)
Theorem X3_harvest_only_appends
    (params : QueryFilter) (w w1 : World) (all_urls : list string) :
  scrape_search_results urlencode max_retries params w = (Return all_urls, w1) ->
  exists out w2 new,
    scrape_all urlencode isna max_retries params w = (Return out, w2)
    /\ csv_file w2
       = Some (mkLedger
                 (match csv_file w with Some ledger => header ledger | None => fieldnames end)
                 (rows_of (csv_file w) ++ new))
    /\ map URL new
       `sublist_of` urls_to_scrape_of all_urls (read_scraped_urls isna (csv_file w)).
Proof.
  intros Hd.
  pose proof (keeps_scrape_search_results urlencode max_retries params w) as Hk.
  rewrite Hd in Hk. cbn [snd] in Hk.
  unfold scrape_all, bind. rewrite Hd, Hk. unfold init_csv.
  set (todo := urls_to_scrape_of all_urls (read_scraped_urls isna (csv_file w))).
  destruct (csv_file w) as [ledger|] eqn:Hcsv; rewrite Hk.
  - destruct (scrape_loop_run (Z.of_nat (length todo)) todo (mkLoop [] 0 0) 1 w1 ledger Hk)
      as (st' & w' & new & Hl & Hc & Hsub & _).
    rewrite Hl. exists (clean_data <$> all_records (all_data st')), w', new.
    split; [reflexivity|]. split; [exact Hc | exact Hsub].
  - destruct (scrape_loop_run (Z.of_nat (length todo)) todo (mkLoop [] 0 0) 1
                (with_csv w1 (Some (mkLedger fieldnames []))) (mkLedger fieldnames [])
                eq_refl)
      as (st' & w' & new & Hl & Hc & Hsub & _).
    rewrite Hl. exists (clean_data <$> all_records (all_data st')), w', new.
    split; [reflexivity|]. split; [exact Hc | exact Hsub].
Qed.

Lemma elem_of_read_scraped_urls (ledger : Ledger) (u : string) :
  "URL" ∈ header ledger ->
  isna u = false ->
  u ∈ map URL (rows ledger) ->
  u ∈ read_scraped_urls isna (Some ledger).
Proof.
  intros Hh Hna Hin. unfold read_scraped_urls.
  rewrite bool_decide_eq_true_2 by assumption.
  apply elem_of_list_to_set, list_elem_of_In, filter_In.
  split; [now apply list_elem_of_In | now rewrite Hna].
Qed.

(** X4. A run in which no profile failed leaves nothing to do: when
    moms.csv was absent or had the header this program writes, so that the
    appended lines are read back under the names they were written for,
    and no discovered URL reads as a missing value, every discovered URL
    is in the URL column of the file after the run, so that the work list
    of a next run over the same discovered URLs is empty. *)
Theorem X4_complete_run_leaves_no_work
    (params : QueryFilter) (w w1 w2 : World) (all_urls : list string) (st : LoopState) :
  scrape_search_results urlencode max_retries params w = (Return all_urls, w1) ->
  (forall ledger, csv_file w = Some ledger -> header ledger = fieldnames) ->
  (forall u, u ∈ all_urls -> isna u = false) ->
  scrape_loop max_retries
    (Z.of_nat (length (urls_to_scrape_of all_urls (read_scraped_urls isna (csv_file w)))))
    (mkLoop [] 0 0) 1
    (urls_to_scrape_of all_urls (read_scraped_urls isna (csv_file w)))
    (snd (init_csv w1))
  = (Return st, w2) ->
  failed_count st = 0 ->
  snd (scrape_all urlencode isna max_retries params w) = w2
  /\ (forall u, u ∈ all_urls -> u ∈ read_scraped_urls isna (csv_file w2))
  /\ urls_to_scrape_of all_urls (read_scraped_urls isna (csv_file w2)) = [].
Proof.
  intros Hd Hhdr Hna Hloop Hfail.
  pose proof (keeps_scrape_search_results urlencode max_retries params w) as Hk.
  rewrite Hd in Hk. cbn [snd] in Hk.
  set (todo := urls_to_scrape_of all_urls (read_scraped_urls isna (csv_file w))) in *.
  assert (Hrun : snd (scrape_all urlencode isna max_retries params w) = w2).
  { unfold scrape_all, bind. rewrite Hd, Hk. fold todo.
    unfold bind in *. destruct (init_csv w1) as [[[]|e] w1'] eqn:Hi.
    - cbn [snd] in Hloop. now rewrite Hloop.
    - unfold init_csv in Hi. destruct (csv_file w1); discriminate. }
  split; [exact Hrun|].
  assert (Hin : forall u, u ∈ all_urls -> u ∈ read_scraped_urls isna (csv_file w2)).
  { intros u Hu.
    assert (Hcases : exists ledger,
               csv_file (snd (init_csv w1)) = Some ledger
               /\ "URL" ∈ header ledger
               /\ read_scraped_urls isna (csv_file w)
                  = read_scraped_urls isna (Some ledger)).
    { unfold init_csv. rewrite Hk. destruct (csv_file w) as [ledger|] eqn:Hcsv.
      - exists ledger. cbn. rewrite Hk. repeat split.
        rewrite (Hhdr ledger eq_refl). apply elem_of_cons. now left.
      - eexists. cbn. split; [reflexivity|]. split; [|reflexivity].
        apply elem_of_cons. now left. }
    destruct Hcases as (ledger & Hc & Hh & Hread).
    destruct (scrape_loop_run (Z.of_nat (length todo)) todo (mkLoop [] 0 0) 1
                (snd (init_csv w1)) ledger Hc)
      as (st' & w' & new & Hl & Hc' & _ & _ & _ & _ & Hall).
    rewrite Hloop in Hl. injection Hl as <- <-.
    rewrite Hc'. apply elem_of_read_scraped_urls; [exact Hh | now apply Hna |].
    cbn [rows]. rewrite map_app, (Hall Hfail).
    destruct (decide (u ∈ read_scraped_urls isna (csv_file w))) as [Hs | Hs].
    - apply elem_of_app. left. rewrite Hread in Hs. unfold read_scraped_urls in Hs.
      rewrite bool_decide_eq_true_2 in Hs by assumption.
      apply elem_of_list_to_set, list_elem_of_In, filter_In in Hs as [Hs _].
      now apply list_elem_of_In.
    - apply elem_of_app. right. unfold todo. now apply elem_of_urls_to_scrape. }
  split; [exact Hin | now apply urls_to_scrape_nil].
Qed.

(** X5. When [max_retries] is zero or negative no profile is fetched: the
    runner returns [None] without calling the operation, every URL of the
    work list is counted as failed, and neither the site nor the files are
    touched. *)
Theorem X5_no_attempts_no_rows (total idx : Z) (st : LoopState) (urls : list string)
    (w : World) :
  max_retries <= 0 ->
  scrape_loop max_retries total st idx urls w
  = (Return (mkLoop (all_data st ++ map (fun _ => None) urls)
               (successful_count st)
               (failed_count st + Z.of_nat (length urls))),
     w).
Proof.
  intros Hmax. revert st idx. induction urls as [|url urls IH]; intros st idx.
  - cbn. rewrite app_nil_r, Z.add_0_r. now destruct st.
  - cbn [scrape_loop]. unfold bind, process_url.
    rewrite retry_operation_at_0, retry_at_exhausted by lia.
    rewrite IH. cbn [all_data successful_count failed_count map length].
    rewrite <- app_assoc. do 3 f_equal. lia.
Qed.

End OrchestratorFacts.

(** * Further properties of the search page *)

Lemma unique_by_href_app (l m : list Tag) :
  forall seen,
    unique_by_href seen (l ++ m)
    = unique_by_href seen l ++ unique_by_href (seen_after seen l) m.
Proof.
  induction l as [|t l IH]; intros seen; cbn [app unique_by_href seen_after]; [reflexivity|].
  destruct (Str.nonempty (href t) && negb (bool_decide (href t ∈ seen))); cbn [app];
    now rewrite IH.
Qed.

Lemma seen_after_mono (l : list Tag) :
  forall seen h, h ∈ seen -> h ∈ seen_after seen l.
Proof.
  induction l as [|t l IH]; intros seen h Hh; cbn [seen_after]; [assumption|].
  destruct (Str.nonempty (href t) && negb (bool_decide (href t ∈ seen))); apply IH;
    [apply elem_of_union; now right | assumption].
Qed.

Lemma seen_after_elem (l : list Tag) (t : Tag) :
  forall seen,
    t ∈ l -> Str.nonempty (href t) = true -> href t ∈ seen_after seen l.
Proof.
  induction l as [|x l IH]; intros seen Hin Hne; [now apply elem_of_nil in Hin|].
  cbn [seen_after]. apply elem_of_cons in Hin as [<- | Hin].
  - rewrite Hne. cbn [andb]. case_bool_decide as Hs; cbn [negb].
    + now apply seen_after_mono.
    + apply seen_after_mono, elem_of_union. left. now apply elem_of_singleton.
  - destruct (Str.nonempty (href x) && negb (bool_decide (href x ∈ seen))); now apply IH.
Qed.

(** A link that was read before adds nothing. *)
Lemma unique_by_href_skip (l m : list Tag) (t : Tag) (seen : gset string) :
  t ∈ l ->
  unique_by_href seen (l ++ t :: m) = unique_by_href seen (l ++ m).
Proof.
  intros Hin. rewrite !unique_by_href_app. f_equal. cbn [unique_by_href].
  destruct (Str.nonempty (href t)) eqn:Hne; [|reflexivity].
  now rewrite (bool_decide_eq_true_2 _ (seen_after_elem l t seen Hin Hne)).
Qed.

Lemma add_row_links_unique (links : list Tag) :
  forall results tail seen,
    unique_by_href seen (add_row_links results links ++ tail)
    = unique_by_href seen
        (results ++ List.filter (fun link => looks_like_profile (href link)) links ++ tail).
Proof.
  unfold add_row_links.
  induction links as [|link links IH]; intros results tail seen; cbn [fold_left List.filter];
    [reflexivity|].
  rewrite IH. destruct (looks_like_profile (href link)); cbn [andb app]; [|reflexivity].
  case_bool_decide as Hin; cbn [negb].
  - now rewrite unique_by_href_skip.
  - now rewrite <- app_assoc.
Qed.

Lemma collect_rows_unique (rows_ : list (list Tag)) :
  forall results seen,
    unique_by_href seen (fold_left add_row_links rows_ results)
    = unique_by_href seen
        (results
         ++ List.filter (fun link => looks_like_profile (href link)) (concat rows_)).
Proof.
  induction rows_ as [|row rows_ IH]; intros results seen; cbn [fold_left concat].
  - now rewrite app_nil_r.
  - rewrite IH, add_row_links_unique. now rewrite List.filter_app.
Qed.

(** X6. The URL list of a result page depends on the links through their
    [href] alone: the test that keeps a row link out when an equal link was
    collected before changes nothing, since the removal of duplicate
    [href]s drops such a link anyway. The list is that of the links with
    a 10-digit text followed by the profile-like links of the rows, the
    first link of every [href] kept. *)
Theorem X6_page_urls_by_href (page : SearchPage) :
  page_urls page = extract_urls (unique_by_href ∅ (candidate_links page)).
Proof.
  unfold page_urls, collect_links, candidate_links. now rewrite collect_rows_unique.
Qed.

Lemma page_urls_candidates (page : SearchPage) :
  page_urls page = extract_urls (unique_by_href ∅ (candidate_links page)).
Proof.
  unfold page_urls, collect_links, candidate_links. now rewrite collect_rows_unique.
Qed.

Lemma absolute_url_http (h : string) : Str.startswith (absolute_url h) "http" = true.
Proof.
  unfold absolute_url. destruct (Str.startswith h "http") eqn:E; [exact E | reflexivity].
Qed.

Lemma extract_urls_http (results : list Tag) (u : string) :
  u ∈ extract_urls results -> Str.startswith u "http" = true.
Proof.
  unfold extract_urls. rewrite list_elem_of_In, in_flat_map.
  intros (t & _ & Hu). destruct (Str.nonempty (href t)); [|destruct Hu].
  destruct Hu as [<- | []]. apply absolute_url_http.
Qed.

Lemma unique_by_href_elem (l : list Tag) :
  forall seen t,
    t ∈ unique_by_href seen l ->
    t ∈ l /\ Str.nonempty (href t) = true /\ href t ∉ seen.
Proof.
  induction l as [|x l IH]; intros seen t; cbn [unique_by_href].
  - intros H. now apply elem_of_nil in H.
  - destruct (Str.nonempty (href x)) eqn:Hne; cbn [andb].
    + case_bool_decide as Hs; cbn [negb].
      * intros H. apply IH in H as (H1 & H2 & H3).
        split; [apply elem_of_cons; now right | now split].
      * intros H. apply elem_of_cons in H as [-> | H].
        -- split; [apply elem_of_cons; now left | now split].
        -- apply IH in H as (H1 & H2 & H3).
           split; [apply elem_of_cons; now right|]. split; [assumption|].
           intros Hc. apply H3, elem_of_union. now right.
    + intros H. apply IH in H as (H1 & H2 & H3).
      split; [apply elem_of_cons; now right | now split].
Qed.

Lemma unique_by_href_NoDup (l : list Tag) :
  forall seen, NoDup (map href (unique_by_href seen l)).
Proof.
  induction l as [|x l IH]; intros seen; cbn [unique_by_href map]; [constructor|].
  destruct (Str.nonempty (href x) && negb (bool_decide (href x ∈ seen))); [|apply IH].
  cbn [map]. constructor; [|apply IH].
  intros Hin. apply elem_of_map in Hin as (t & Ht & Hin).
  apply unique_by_href_elem in Hin as (_ & _ & Hnot).
  apply Hnot, elem_of_union. left. now apply elem_of_singleton.
Qed.

Lemma elem_of_candidate_links (page : SearchPage) (t : Tag) :
  t ∈ candidate_links page ->
  t ∈ npi_links page \/ exists row, row ∈ table_rows page /\ t ∈ row.
Proof.
  unfold candidate_links. intros H. apply elem_of_app in H as [H | H]; [now left|].
  right. apply list_elem_of_In, filter_In in H as [H _].
  apply in_concat in H as (row & Hrow & Ht).
  exists row. split; now apply list_elem_of_In.
Qed.

(** X7. Every URL read off a result page is absolute: it starts with
    http. When no link of the page has an [href] that starts with http
    (the site links its profiles by path), the URL list has no
    duplicates. *)
Theorem X7_page_urls_absolute_and_distinct (page : SearchPage) :
  (forall t,
      t ∈ npi_links page \/ (exists row, row ∈ table_rows page /\ t ∈ row) ->
      Str.startswith (href t) "http" = false) ->
  (forall u, u ∈ page_urls page -> Str.startswith u "http" = true)
  /\ NoDup (page_urls page).
Proof.
  intros Hrel. split; [intros u; apply extract_urls_http|].
  rewrite page_urls_candidates.
  assert (Hgen : forall l : list Tag,
             (forall t, t ∈ l ->
                        Str.nonempty (href t) = true
                        /\ Str.startswith (href t) "http" = false) ->
             NoDup (map href l) -> NoDup (extract_urls l)).
  { induction l as [|x l IH]; intros Hl Hnd; cbn; [constructor|].
    cbn [map] in Hnd. apply NoDup_cons in Hnd as [Hx Hnd].
    destruct (Hl x) as [Hne Hhttp]; [apply elem_of_cons; now left|].
    rewrite Hne. cbn [app].
    assert (IHl : NoDup (extract_urls l)).
    { apply IH; [|exact Hnd]. intros t Ht. apply Hl, elem_of_cons. now right. }
    constructor; [|exact IHl].
    intros Hin. apply Hx. unfold extract_urls in Hin.
    apply list_elem_of_In, in_flat_map in Hin as (t & Ht & Hu).
    apply list_elem_of_In in Ht.
    destruct (Hl t) as [Hne' Hhttp']; [apply elem_of_cons; now right|].
    rewrite Hne' in Hu. destruct Hu as [Hu | []].
    unfold absolute_url in Hu. rewrite Hhttp, Hhttp' in Hu.
    apply (inj (String.append "https://npidb.org")) in Hu.
    apply elem_of_map. exists t. now split. }
  apply Hgen; [|apply unique_by_href_NoDup].
  intros t Ht. apply unique_by_href_elem in Ht as (Hin & Hne & _).
  split; [exact Hne|]. now apply Hrel, elem_of_candidate_links.
Qed.

(** * Further properties of the partitioner *)

Section PartitionerFacts.

Context {Env : Type} {browser : Browser Env}.
Variable urlencode : list (string * string) -> string.
Variable isna : string -> bool.
Variable max_retries : Z.

Local Abbreviation M := (M Env).
Local Abbreviation World := (World Env).

(** All URLs of the list start with http. *)
Local Abbreviation absolute urls := (forall u : string, u ∈ urls -> Str.startswith u "http" = true).

Lemma search_profiles_absolute (first last middle state : string) (w w1 : World)
    (urls : list string) :
  search_profiles urlencode first last middle state w = (Return (Some urls), w1) ->
  absolute urls.
Proof.
  rewrite search_profiles_fetch.
  destruct (fetch_search_page _ _ _ _ _ w) as [[page|e] w2]; [|discriminate].
  destruct (CAP <? Z.of_nat (length (page_urls page))); [discriminate|].
  intros [= <- _] u. apply extract_urls_http.
Qed.

Lemma collect_first_30_absolute (first last middle state : string) (w w1 : World)
    (urls : list string) :
  collect_first_30 urlencode first last middle state w = (Return urls, w1) ->
  absolute urls.
Proof.
  unfold collect_first_30, try_except, bind.
  destruct (driver_get _ w) as [[[]|e] w2].
  - destruct (time_sleep 5 w2) as [[[]|e] w3].
    + destruct (driver_search_page w3) as [[page|e] w4].
      * intros [= <- _] u. apply extract_urls_http.
      * intros [= <- _] u Hu. now apply elem_of_nil in Hu.
    + intros [= <- _] u Hu. now apply elem_of_nil in Hu.
  - intros [= <- _] u Hu. now apply elem_of_nil in Hu.
Qed.

Lemma extend_each_absolute {X} (xs : list X) (call : X -> M (list string)) :
  (forall x w urls w1, call x w = (Return urls, w1) -> absolute urls) ->
  forall acc w urls w1,
    absolute acc ->
    extend_each acc xs call w = (Return urls, w1) ->
    absolute urls.
Proof.
  intros Hcall. induction xs as [|x xs IH]; intros acc w urls w1 Hacc; cbn [extend_each].
  - now intros [= <- _].
  - unfold bind. destruct (call x w) as [[l|e] w2] eqn:Hx; [|discriminate].
    intros He. apply (IH (acc ++ l) w2 urls w1); [|exact He].
    intros u Hu. apply elem_of_app in Hu as [Hu | Hu]; [now apply Hacc|].
    now apply (Hcall x w l w2 Hx).
Qed.

Lemma recursive_search_upto_absolute (n : nat) :
  forall first last middle state w urls w1,
    recursive_search_upto urlencode max_retries n first last middle state w
    = (Return urls, w1) ->
    absolute urls.
Proof.
  induction n as [|n IH]; intros first last middle state w urls w1; [discriminate|].
  cbn [recursive_search_upto]. rewrite body_narrow.
  destruct (_retry_operation _ _ w) as [[r|e] w2] eqn:Hr; [|discriminate].
  assert (Hnarrow :
    narrow urlencode (recursive_search_upto urlencode max_retries n)
      (mkFilter first last middle state) w2 = (Return urls, w1) -> absolute urls).
  { unfold narrow. destruct (children_of _) as [cs|]; intros He.
    - intros u Hu. eapply extend_each_absolute; [ | | exact He | exact Hu].
      + intros c w' l w'' Hc u' Hu'. exact (IH _ _ _ _ _ _ _ Hc u' Hu').
      + intros u' Hu'. now apply elem_of_nil in Hu'.
    - exact (collect_first_30_absolute _ _ _ _ _ _ _ He). }
  destruct r as [[l|]|]; [|exact Hnarrow|exact Hnarrow].
  unfold _retry_operation in Hr. apply retry_loop_return_inv in Hr as [w0 Hop].
  pose proof (search_profiles_absolute _ _ _ _ _ _ _ Hop) as Habs.
  destruct (Z.of_nat (length l) <=? CAP); intros [= <- _]; [exact Habs|].
  intros u Hu. now apply elem_of_nil in Hu.
Qed.

(** X8. Every URL that discovery returns is absolute: it starts with
    http, whatever the site shows and however the search was narrowed. In
    particular no discovered URL is empty. *)
Theorem X8_discovered_urls_are_absolute
    (params : QueryFilter) (w w1 : World) (all_urls : list string) (u : string) :
  scrape_search_results urlencode max_retries params w = (Return all_urls, w1) ->
  u ∈ all_urls ->
  Str.startswith u "http" = true /\ u <> EmptyString.
Proof.
  intros Hd Hu.
  assert (Hhttp : Str.startswith u "http" = true).
  { revert Hd. unfold scrape_search_results, recursive_search.
    destruct (Str.nonempty (qf_first params)).
    - intros Hd. exact (recursive_search_upto_absolute 7 _ _ _ _ _ _ _ Hd u Hu).
    - unfold bind.
      destruct (extend_each _ _ _ w) as [[l|e] w2] eqn:He; [|discriminate].
      intros [= <- _]. apply elem_of_elements, elem_of_list_to_set in Hu.
      eapply extend_each_absolute; [ | | exact He | exact Hu].
      + intros x w' l' w'' Hx u' Hu'.
        exact (recursive_search_upto_absolute 7 _ _ _ _ _ _ _ Hx u' Hu').
      + intros u' Hu'. now apply elem_of_nil in Hu'. }
  split; [exact Hhttp|]. intros ->. discriminate Hhttp.
Qed.

(** X9. The nesting of [recursive_search] never exceeds seven calls: for
    every filter and every behaviour of the site, allowing more nested
    calls gives the same run, and a filter with [depth] narrowing steps
    ahead needs [depth + 1] of them. *)
Theorem X9_nesting_is_bounded (n : nat) (first last middle state : string) (w : World) :
  (depth first last middle state < n)%nat ->
  recursive_search_upto urlencode max_retries n first last middle state w
  = recursive_search urlencode max_retries first last middle state w
  /\ (depth first last middle state <= 6)%nat.
Proof.
  intros Hn. pose proof (depth_le_6 first last middle state) as H6.
  split; [|exact H6]. unfold recursive_search. apply upto_stable; lia.
Qed.

Lemma resolve_all_raise (cs1 cs2 : list QueryFilter) (c : QueryFilter)
    (w w1 w2 : World) (rs : list (list string)) (e : string) :
  resolved_in_turn urlencode max_retries cs1 w rs w1 ->
  resolve urlencode max_retries c w1 = (Raise e, w2) ->
  forall acc,
    extend_each acc (cs1 ++ c :: cs2) (resolve urlencode max_retries) w = (Raise e, w2).
Proof.
  induction 1 as [w | c0 cs w urls w0 rest w1 Hc0 Hrest IH]; intros Hc acc;
    cbn [app extend_each]; unfold bind.
  - now rewrite Hc.
  - rewrite Hc0. now apply IH.
Qed.

(** X10. A probe that fails for good ends the whole search: the error of
    the runner leaves [recursive_search] at once, and when the probe of a
    child filter raises, the parent raises the same error and the URLs
    that the children before it returned are lost. *)
Theorem X10_probe_failure_ends_the_search
    (f c : QueryFilter) (cs1 cs2 : list QueryFilter) (w w1 w2 w3 : World)
    (r : option (option (list string))) (rs : list (list string)) (e : string) :
  probe urlencode max_retries f w = (Return r, w1) ->
  over_limit r ->
  children_of f = Some (cs1 ++ c :: cs2) ->
  resolved_in_turn urlencode max_retries cs1 w1 rs w2 ->
  probe urlencode max_retries c w2 = (Raise e, w3) ->
  resolve urlencode max_retries c w2 = (Raise e, w3)
  /\ resolve urlencode max_retries f w = (Raise e, w3).
Proof.
  intros Hp Hr Hcs Hrs Hc.
  assert (Hrc : resolve urlencode max_retries c w2 = (Raise e, w3)).
  { rewrite resolve_unfold. now rewrite Hc. }
  split; [exact Hrc|].
  rewrite (resolve_over_limit urlencode max_retries f w w1 r Hp Hr).
  rewrite (narrow_children urlencode max_retries f _ w1 Hcs).
  unfold resolve_all. now apply (resolve_all_raise cs1 cs2 c w1 w2 w3 rs e).
Qed.

(** X11. When discovery raises, [scrape_all] raises the same error
    before it looks at moms.csv: no header is written, no row is added and
    no profile is fetched. *)
Theorem X11_discovery_failure_writes_nothing
    (params : QueryFilter) (w w1 : World) (e : string) :
  scrape_search_results urlencode max_retries params w = (Raise e, w1) ->
  scrape_all urlencode isna max_retries params w = (Raise e, w1)
  /\ csv_file w1 = csv_file w.
Proof.
  intros Hd. split.
  - unfold scrape_all, bind. now rewrite Hd.
  - pose proof (keeps_scrape_search_results urlencode max_retries params w) as Hk.
    now rewrite Hd in Hk.
Qed.

(** X12. Without a first initial in the root filter the 26 letters are
    searched in turn, and the discovered list holds every URL that one of
    these searches returned, each one once. *)
Theorem X12_unconstrained_discovery_is_a_set
    (params : QueryFilter) (w w1 : World) (rs : list (list string)) :
  Str.nonempty (qf_first params) = false ->
  resolved_in_turn urlencode max_retries
    (map (fun f => mkFilter f (qf_last params) (qf_middle params) (qf_state params))
       (Str.chars ALPHABET))
    w rs w1 ->
  exists all_urls,
    scrape_search_results urlencode max_retries params w = (Return all_urls, w1)
    /\ NoDup all_urls
    /\ (forall u, u ∈ all_urls <-> u ∈ concat rs).
Proof.
  intros Hf Hrs. unfold scrape_search_results. rewrite Hf. unfold bind.
  pose proof (resolve_all_in_turn urlencode max_retries _ w w1 rs Hrs []) as Hall.
  rewrite extend_each_map in Hall. cbn [app] in Hall.
  unfold resolve in Hall. cbn [qf_first qf_last qf_middle qf_state] in Hall.
  rewrite Hall. eexists. split; [reflexivity|]. split; [apply NoDup_elements|].
  intros u. now rewrite elem_of_elements, elem_of_list_to_set.
Qed.

End PartitionerFacts.

(** * Further properties of the finalizer *)

Lemma expand_word_idempotent (w : string) : expand_word (expand_word w) = expand_word w.
Proof.
  destruct (eq_ci w "ST") eqn:E1.
  { assert (expand_word w = "Street") as -> by (unfold expand_word; now rewrite E1).
    reflexivity. }
  destruct (eq_ci w "AVE") eqn:E2.
  { assert (expand_word w = "Avenue") as -> by (unfold expand_word; now rewrite E1, E2).
    reflexivity. }
  destruct (eq_ci w "BLVD") eqn:E3.
  { assert (expand_word w = "Boulevard") as ->
      by (unfold expand_word; now rewrite E1, E2, E3).
    reflexivity. }
  assert (expand_word w = w) as -> by (unfold expand_word; now rewrite E1, E2, E3).
  unfold expand_word. now rewrite E1, E2, E3.
Qed.

Lemma expand_word_word (w : string) : all_word w = true -> all_word (expand_word w) = true.
Proof.
  intros Hw. unfold expand_word.
  destruct (eq_ci w "ST"); [reflexivity|].
  destruct (eq_ci w "AVE"); [reflexivity|].
  now destruct (eq_ci w "BLVD").
Qed.

Lemma standardize_address_idempotent (a : string) :
  standardize_address (standardize_address a) = standardize_address a.
Proof.
  destruct (render_total a) as (w & rest & Hw & Hrest & ->).
  rewrite (standardize_address_render w rest Hw Hrest).
  rewrite standardize_address_render;
    [| now apply expand_word_word
     | apply map_words_separated; [apply expand_word_word | assumption] ].
  rewrite expand_word_idempotent. f_equal.
  unfold map_words. rewrite map_map. apply map_ext. intros [c w']. cbn.
  now rewrite expand_word_idempotent.
Qed.

Lemma drop_duplicates_distinct (df : list RawRecord) :
  forall seen,
    NoDup (map NPI df) ->
    (forall r, r ∈ df -> NPI r ∉ seen) ->
    drop_duplicates seen df = df.
Proof.
  induction df as [|row rest IH]; intros seen Hnd Hseen; cbn [drop_duplicates]; [reflexivity|].
  cbn [map] in Hnd. apply NoDup_cons in Hnd as [Hrow Hnd].
  rewrite bool_decide_eq_false_2 by (apply Hseen, elem_of_cons; now left).
  f_equal. apply IH; [exact Hnd|].
  intros r Hr Hc. apply elem_of_union in Hc as [Hc | Hc].
  - apply elem_of_singleton in Hc. apply Hrow, elem_of_map. now exists r.
  - apply (Hseen r); [apply elem_of_cons; now right | exact Hc].
Qed.






(** X14. Cleaning is idempotent: the three replacements change nothing
    in an address they have rewritten, and [clean_data] returns its own
    output unchanged. *)
Theorem X14_clean_data_idempotent (data : list RawRecord) :
  clean_data (clean_data data) = clean_data data
  /\ (forall a, standardize_address (standardize_address a) = standardize_address a).
Proof.
  split; [|apply standardize_address_idempotent].
  assert (Heq : clean_data data
                = map (fun row => with_address row (standardize_address (Address row)))
                    (drop_duplicates ∅ (List.filter npi_valid data))).
  { rewrite clean_data_eq, filter_with_address. f_equal. apply filter_drop_duplicates. }
  assert (Hnd : NoDup (map NPI (clean_data data))).
  { rewrite Heq, map_map. cbn. apply drop_duplicates_NoDup. }
  assert (Hvalid : forall r, r ∈ clean_data data -> npi_valid r = true).
  { intros r. rewrite clean_data_eq. intros Hr.
    now apply list_elem_of_In, filter_In in Hr as [_ Hr]. }
  assert (Hnorm : map (fun row => with_address row (standardize_address (Address row)))
                    (clean_data data)
                  = clean_data data).
  { rewrite <- (map_id (clean_data data)) at 2. apply map_ext_in.
    intros r Hr. apply list_elem_of_In, clean_data_address in Hr as (r0 & _ & ->).
    unfold with_address. cbn [Address URL NPI other].
    now rewrite standardize_address_idempotent. }
  rewrite (clean_data_eq (clean_data data)).
  rewrite drop_duplicates_distinct;
    [| exact Hnd | intros r _ Hc; now apply elem_of_empty in Hc].
  rewrite Hnorm.
  revert Hvalid. generalize (clean_data data). clear.
  induction l as [|r l IH]; intros Hvalid; cbn [List.filter]; [reflexivity|].
  rewrite (Hvalid r) by (apply elem_of_cons; now left).
  f_equal. apply IH. intros r' Hr'. apply Hvalid, elem_of_cons. now right.
Qed.

(** * Properties of the name block *)

Lemma append_assoc (a b c : string) : (a +:+ b) +:+ c = a +:+ (b +:+ c).
Proof. induction a as [|x a IH]; [reflexivity | app_step; now rewrite IH]. Qed.

Lemma no_space_app (a b : string) :
  no_space (a +:+ b) = no_space a && no_space b.
Proof.
  induction a as [|x a IH]; [reflexivity|]. app_step. cbn [no_space].
  now rewrite IH, andb_assoc.
Qed.

Lemma no_comma_app (a b : string) :
  no_comma (a +:+ b) = no_comma a && no_comma b.
Proof.
  induction a as [|x a IH]; [reflexivity|]. app_step. cbn [no_comma].
  now rewrite IH, andb_assoc.
Qed.

Lemma nonempty_true (s : string) : Str.nonempty s = true <-> s <> EmptyString.
Proof. destruct s; cbn; split; congruence. Qed.

(** The words of a text are not empty and hold no whitespace. *)
Lemma split_from_tokens (s : string) :
  forall cur t, no_space cur = true -> t ∈ Py.split_from cur s -> is_token t.
Proof.
  induction s as [|c s IH]; intros cur t Hcur; cbn [Py.split_from].
  - destruct (Str.nonempty cur) eqn:Hne; intros Ht.
    + apply elem_of_cons in Ht as [-> | Ht]; [|now apply elem_of_nil in Ht].
      split; [now apply nonempty_true | exact Hcur].
    + now apply elem_of_nil in Ht.
  - destruct (Py.is_space c) eqn:Hc.
    + destruct (Str.nonempty cur) eqn:Hne; intros Ht.
      * apply elem_of_cons in Ht as [-> | Ht];
          [split; [now apply nonempty_true | exact Hcur] | now apply (IH EmptyString)].
      * now apply (IH EmptyString).
    + apply IH. rewrite no_space_app, Hcur. cbn. now rewrite Hc.
Qed.

(** The words of a text without a comma hold no comma. *)
Lemma split_from_no_comma (s : string) :
  forall cur t,
    no_comma cur = true -> no_comma s = true -> t ∈ Py.split_from cur s ->
    no_comma t = true.
Proof.
  induction s as [|c s IH]; intros cur t Hcur Hs; cbn [Py.split_from].
  - destruct (Str.nonempty cur); intros Ht.
    + apply elem_of_cons in Ht as [-> | Ht]; [exact Hcur | now apply elem_of_nil in Ht].
    + now apply elem_of_nil in Ht.
  - cbn [no_comma] in Hs. apply andb_true_iff in Hs as [Hc Hs].
    destruct (Py.is_space c).
    + destruct (Str.nonempty cur); intros Ht.
      * apply elem_of_cons in Ht as [-> | Ht]; [exact Hcur | now apply (IH EmptyString)].
      * now apply (IH EmptyString).
    + apply IH; [|exact Hs]. rewrite no_comma_app, Hcur. cbn [no_comma andb].
      now rewrite Hc.
Qed.

Lemma before_comma_no_comma (s : string) : no_comma (Py.before_comma s) = true.
Proof.
  induction s as [|c s IH]; [reflexivity|]. cbn [Py.before_comma].
  destruct (Ascii.eqb c ",") eqn:Hc; [reflexivity|]. cbn [no_comma]. now rewrite Hc.
Qed.

Lemma lstrip_no_comma (s : string) : no_comma s = true -> no_comma (Py.lstrip s) = true.
Proof.
  induction s as [|c s IH]; [reflexivity|]. cbn [Py.lstrip no_comma]. intros H.
  destruct (Py.is_space c); [|exact H]. apply andb_true_iff in H as [_ H]. now apply IH.
Qed.

Lemma rstrip_no_comma (s : string) : no_comma s = true -> no_comma (Py.rstrip s) = true.
Proof.
  induction s as [|c s IH]; [reflexivity|]. cbn [Py.rstrip no_comma]. intros H.
  apply andb_true_iff in H as [Hc H]. specialize (IH H).
  destruct (Py.rstrip s) as [|c' s'].
  - destruct (Py.is_space c); [reflexivity|]. cbn [no_comma]. now rewrite Hc.
  - cbn [no_comma] in *. now rewrite Hc, IH.
Qed.

(** Reading a word. *)
Lemma split_from_word (t : string) :
  forall cur rest,
    no_space t = true ->
    Py.split_from cur (t +:+ rest) = Py.split_from (cur +:+ t) rest.
Proof.
  induction t as [|c t IH]; intros cur rest Ht.
  - now rewrite append_empty.
  - cbn [no_space] in Ht. apply andb_true_iff in Ht as [Hc Ht].
    apply negb_true_iff in Hc. app_step. cbn [Py.split_from]. rewrite Hc.
    rewrite IH by exact Ht. now rewrite append_assoc.
Qed.

(** Splitting the words joined by single spaces gives the words back. *)
Lemma split_join (parts : list string) :
  Forall is_token parts -> Py.split (Py.join parts) = parts.
Proof.
  unfold Py.split. induction 1 as [|t parts [Hne Hns] Hparts IH]; [reflexivity|].
  apply nonempty_true in Hne. destruct parts as [|t' parts].
  - cbn [Py.join]. rewrite <- (append_empty t) at 1.
    rewrite split_from_word by exact Hns. change (EmptyString +:+ t) with t.
    cbn [Py.split_from]. now rewrite Hne.
  - change (Py.join (t :: t' :: parts)) with (t +:+ String " " (Py.join (t' :: parts))).
    rewrite split_from_word by exact Hns.
    change (EmptyString +:+ t) with t. cbn [Py.split_from]. 
    change (Py.is_space " ") with true. cbv iota. rewrite Hne. now rewrite IH.
Qed.

Lemma parts_first_inner_last (parts : list string) :
  (2 <= length parts)%nat ->
  parts = nth 0 parts EmptyString :: inner_parts parts ++ [List.last parts EmptyString].
Proof.
  destruct parts as [|a [|b parts]]; cbn [length]; try lia. intros _.
  cbn [nth inner_parts tl]. f_equal.
  change (List.last (a :: b :: parts) EmptyString) with (List.last (b :: parts) EmptyString).
  apply app_removelast_last. discriminate.
Qed.

Lemma Forall_tokens_inner (parts : list string) :
  Forall is_token parts -> Forall is_token (inner_parts parts).
Proof.
  intros H. apply Forall_forall. intros t Ht.
  refine (proj1 (Forall_forall _ _) H t _).
  unfold inner_parts in Ht. destruct parts as [|a parts]; [now apply elem_of_nil in Ht|].
  cbn [tl] in Ht. apply elem_of_cons. right.
  clear -Ht. induction parts as [|b parts IH]; [now apply elem_of_nil in Ht|].
  cbn [removelast] in Ht. destruct parts as [|c parts]; [now apply elem_of_nil in Ht|].
  apply elem_of_cons in Ht as [-> | Ht]; apply elem_of_cons; [now left | right; now apply IH].
Qed.

(** X15. First Name and Last Name are set together or not at all. They
    stay empty exactly when the heading has fewer than two words before
    its first comma, a single name included; when they are set, each is one
    word, without whitespace and without a comma. *)
Theorem X15_first_and_last_name_are_words (text : string) :
  let nf := name_fields (Some text) in
  let name_parts := Py.split (Py.strip (Py.before_comma (Py.strip text))) in
  ((length name_parts < 2)%nat ->
   first_name nf = EmptyString /\ last_name nf = EmptyString
   /\ middle_name nf = EmptyString)
  /\ ((2 <= length name_parts)%nat ->
      is_token (first_name nf) /\ no_comma (first_name nf) = true
      /\ is_token (last_name nf) /\ no_comma (last_name nf) = true)
  /\ (first_name nf = EmptyString <-> last_name nf = EmptyString).
Proof.
  intros nf name_parts.
  assert (Htok : Forall is_token name_parts).
  { apply Forall_forall. intros t Ht.
    exact (split_from_tokens (Py.strip (Py.before_comma (Py.strip text)))
             EmptyString t eq_refl Ht). }
  assert (Hcom : forall t, t ∈ name_parts -> no_comma t = true).
  { intros t Ht.
    apply (split_from_no_comma (Py.strip (Py.before_comma (Py.strip text)))
             EmptyString t eq_refl); [|exact Ht].
    apply rstrip_no_comma, lstrip_no_comma, before_comma_no_comma. }
  assert (Hset : (2 <= length name_parts)%nat ->
                 is_token (first_name nf) /\ no_comma (first_name nf) = true
                 /\ is_token (last_name nf) /\ no_comma (last_name nf) = true).
  { intros Hlen. pose proof (parts_first_inner_last name_parts Hlen) as Hparts.
    subst nf. cbn [name_fields first_name last_name]. fold name_parts.
    destruct (Nat.leb_spec 2 (length name_parts)); [|lia].
    assert (H1 : nth 0 name_parts EmptyString ∈ name_parts)
      by (rewrite Hparts at 2; apply elem_of_cons; now left).
    assert (H2 : List.last name_parts EmptyString ∈ name_parts).
    { rewrite Hparts at 2. apply elem_of_cons. right. apply elem_of_app. right.
      apply elem_of_cons. now left. }
    repeat split; try (now apply Hcom);
      try (apply (proj1 (Forall_forall _ _) Htok _ H1));
      try (apply (proj1 (Forall_forall _ _) Htok _ H2)). }
  assert (Hunset : (length name_parts < 2)%nat ->
                   first_name nf = EmptyString /\ last_name nf = EmptyString
                   /\ middle_name nf = EmptyString).
  { intros Hlen. subst nf. cbn [name_fields first_name last_name middle_name].
    fold name_parts. destruct (Nat.leb_spec 2 (length name_parts)); [lia|]. now cbn. }
  split; [exact Hunset|]. split; [exact Hset|].
  destruct (Nat.le_gt_cases 2 (length name_parts)) as [Hlen | Hlen].
  - destruct (Hset Hlen) as ([Hf _] & _ & [Hl _] & _). split; intros H; contradiction.
  - destruct (Hunset Hlen) as (Hf & Hl & _). now rewrite Hf, Hl.
Qed.

(** X16. When the heading has at least two words before its first comma,
    these words are First Name, then the words of Middle Name, then Last
    Name: nothing of the name is lost and nothing is added. *)
Theorem X16_name_columns_hold_the_words (text : string) :
  let nf := name_fields (Some text) in
  let name_parts := Py.split (Py.strip (Py.before_comma (Py.strip text))) in
  (2 <= length name_parts)%nat ->
  name_parts = first_name nf :: Py.split (middle_name nf) ++ [last_name nf]
  /\ Py.split (Py.join (first_name nf :: Py.split (middle_name nf) ++ [last_name nf]))
     = name_parts.
Proof.
  intros nf name_parts Hlen.
  assert (Htok : Forall is_token name_parts).
  { apply Forall_forall. intros t Ht.
    exact (split_from_tokens (Py.strip (Py.before_comma (Py.strip text)))
             EmptyString t eq_refl Ht). }
  assert (Hmid : Py.split (middle_name nf) = inner_parts name_parts).
  { subst nf. cbn [name_fields middle_name]. fold name_parts.
    destruct (Nat.leb_spec 2 (length name_parts)); [|lia]. cbn [andb].
    destruct (Nat.ltb_spec 2 (length name_parts)).
    - apply split_join. now apply Forall_tokens_inner.
    - assert (length name_parts = 2%nat) as Hl by lia.
      destruct name_parts as [|a [|b [|c l]]]; try discriminate Hl. reflexivity. }
  assert (Heq : name_parts
                = first_name nf :: Py.split (middle_name nf) ++ [last_name nf]).
  { rewrite Hmid. subst nf. cbn [name_fields first_name last_name]. fold name_parts.
    destruct (Nat.leb_spec 2 (length name_parts)); [|lia].
    now apply parts_first_inner_last. }
  split; [exact Heq|]. rewrite <- Heq. now apply split_join.
Qed.

Lemma lstrip_head (s : string) :
  match Py.lstrip s with
  | EmptyString => True
  | String c _ => Py.is_space c = false
  end.
Proof.
  induction s as [|c s IH]; cbn [Py.lstrip]; [exact I|].
  destruct (Py.is_space c) eqn:Hc; [exact IH | exact Hc].
Qed.

Lemma rstrip_cons (c : ascii) (s : string) :
  Py.rstrip (String c s)
  = match Py.rstrip s with
    | EmptyString => if Py.is_space c then EmptyString else String c EmptyString
    | String c' rest' => String c (String c' rest')
    end.
Proof. reflexivity. Qed.

Lemma rstrip_idempotent (s : string) : Py.rstrip (Py.rstrip s) = Py.rstrip s.
Proof.
  induction s as [|c s IH]; [reflexivity|]. rewrite rstrip_cons.
  destruct (Py.rstrip s) as [|c' s'] eqn:E.
  - destruct (Py.is_space c) eqn:Hc; [reflexivity|].
    rewrite rstrip_cons. cbn [Py.rstrip]. now rewrite Hc.
  - rewrite rstrip_cons. now rewrite IH.
Qed.

Lemma strip_head (s : string) :
  match Py.strip s with
  | EmptyString => True
  | String c _ => Py.is_space c = false
  end.
Proof.
  unfold Py.strip. pose proof (lstrip_head s) as H.
  destruct (Py.lstrip s) as [|c r]; [exact I|]. rewrite rstrip_cons.
  destruct (Py.rstrip r); [now rewrite H | exact H].
Qed.

Lemma strip_idempotent (s : string) : Py.strip (Py.strip s) = Py.strip s.
Proof.
  pose proof (strip_head s) as H.
  assert (Hl : Py.lstrip (Py.strip s) = Py.strip s).
  { destruct (Py.strip s) as [|c r]; [reflexivity|]. cbn [Py.lstrip]. now rewrite H. }
  unfold Py.strip at 1. rewrite Hl. unfold Py.strip. apply rstrip_idempotent.
Qed.

Lemma after_comma_split (s rest : string) :
  Py.after_comma s = Some rest -> s = Py.before_comma s +:+ String "," rest.
Proof.
  induction s as [|c s IH]; cbn [Py.after_comma Py.before_comma]; [discriminate|].
  destruct (Ascii.eqb_spec c ",") as [-> | Hc].
  - now intros [= ->].
  - intros H. app_step. now rewrite <- IH.
Qed.

Lemma after_comma_none (s : string) : Py.after_comma s = None <-> no_comma s = true.
Proof.
  induction s as [|c s IH]; cbn [Py.after_comma no_comma]; [tauto|].
  destruct (Ascii.eqb c ","); cbn [negb andb]; [split; discriminate | exact IH].
Qed.

(** X17. The Credentials column never starts or ends with whitespace, and
    neither does Full Name. When the table has a cell behind the cell
    Credentials, the column is the stripped text of that cell, whatever the
    heading says. Otherwise it is the stripped text behind the first comma
    of the heading, and empty when the heading has no comma or when there
    is no heading. *)
Theorem X17_credentials_table_then_heading (name_elem cred_value : option string) :
  let column := credentials_column name_elem cred_value in
  Py.strip column = column
  /\ Py.strip (full_name (name_fields name_elem)) = full_name (name_fields name_elem)
  /\ (forall cell, cred_value = Some cell -> column = Py.strip cell)
  /\ (cred_value = None -> name_elem = None -> column = EmptyString)
  /\ (forall text,
        cred_value = None -> name_elem = Some text ->
        (no_comma (Py.strip text) = true -> column = EmptyString)
        /\ (forall rest,
              Py.after_comma (Py.strip text) = Some rest ->
              Py.strip text = Py.before_comma (Py.strip text) +:+ String "," rest
              /\ no_comma (Py.before_comma (Py.strip text)) = true
              /\ column = Py.strip rest)).
Proof.
  intros column. subst column. split; [|split; [|split; [|split]]].
  - destruct cred_value as [cell|]; cbn [credentials_column]; [apply strip_idempotent|].
    destruct name_elem as [text|]; cbn [name_fields heading_credentials]; [|reflexivity].
    destruct (Py.after_comma (Py.strip text)); [apply strip_idempotent | reflexivity].
  - destruct name_elem as [text|]; cbn [name_fields full_name];
      [apply strip_idempotent | reflexivity].
  - now intros cell ->.
  - now intros -> ->.
  - intros text -> ->. cbn [credentials_column name_fields heading_credentials]. split.
    + intros H. apply after_comma_none in H. now rewrite H.
    + intros rest H. rewrite H.
      split; [now apply after_comma_split|].
      split; [apply before_comma_no_comma | reflexivity].
Qed.

(** * The checkpoint *)

Section CheckpointFacts.

Context {Env : Type} {browser : Browser Env}.
Variable max_retries : Z.

Local Abbreviation M := (M Env).
Local Abbreviation World := (World Env).

Lemma checkpoint_bind {A B} (m : M A) (k : A -> M B) :
  (forall w, checkpoint_file (snd (m w)) = checkpoint_file w) ->
  (forall a w, checkpoint_file (snd (k a w)) = checkpoint_file w) ->
  forall w, checkpoint_file (snd (bind m k w)) = checkpoint_file w.
Proof.
  intros Hm Hk w. unfold bind. specialize (Hm w).
  destruct (m w) as [[a|e] w1]; cbn [snd] in *; [|exact Hm].
  now rewrite Hk.
Qed.

Lemma checkpoint_env_call {A} (f : Env -> Result A * Env) (w : World) :
  checkpoint_file (snd (env_call f w)) = checkpoint_file w.
Proof. unfold env_call. now destruct (f (env w)). Qed.

Lemma checkpoint_reinitialize (w : World) :
  checkpoint_file (snd (_reinitialize_browser w)) = checkpoint_file w.
Proof.
  unfold _reinitialize_browser.
  now rewrite (checkpoint_bind (env_call drv_restart) (fun _ => time_sleep 3)
                 (checkpoint_env_call _) (fun _ _ => eq_refl)).
Qed.

Lemma checkpoint_extract_profile_data (url : string) (w : World) :
  checkpoint_file (snd (extract_profile_data url w)) = checkpoint_file w.
Proof.
  unfold extract_profile_data. apply checkpoint_bind.
  - intros w0. unfold driver_get. now rewrite checkpoint_env_call.
  - intros _. apply checkpoint_bind; [apply checkpoint_env_call | reflexivity].
Qed.

Lemma checkpoint_retry_loop {A} (operation : M A) (attempts : list Z) :
  (forall w, checkpoint_file (snd (operation w)) = checkpoint_file w) ->
  forall w,
    checkpoint_file (snd (retry_loop max_retries operation attempts w))
    = checkpoint_file w.
Proof.
  intros Hop. induction attempts as [|attempt rest IH]; intros w; [reflexivity|].
  rewrite retry_loop_cons. specialize (Hop w).
  destruct (operation w) as [[v|e] w1]; cbn [snd] in *; [exact Hop|].
  pose proof (checkpoint_bind (time_sleep (2 ^ attempt))
                (fun _ => retry_loop max_retries operation rest)
                (fun _ => eq_refl) (fun _ => IH) w1) as Hs.
  pose proof (checkpoint_bind _reinitialize_browser
                (fun _ => retry_loop max_retries operation rest)
                checkpoint_reinitialize (fun _ => IH) w1) as Hr.
  destruct (is_session_error e), (attempt <? max_retries - 1); cbn [andb snd];
    congruence.
Qed.

(** One round of the loop and the checkpoint. *)
Lemma process_url_checkpoint (total idx : Z) (st : LoopState) (url : string) (w : World) :
  exists st' w',
    process_url max_retries total st idx url w = (Return st', w')
    /\ ((successful_count st' = successful_count st
         /\ failed_count st' = failed_count st + 1
         /\ checkpoint_file w' = checkpoint_file w)
        \/ (successful_count st' = successful_count st + 1
            /\ failed_count st' = failed_count st
            /\ checkpoint_file w'
               = if (successful_count st + 1) mod 10 =? 0
                 then Some (mkCheckpoint idx total (successful_count st + 1)
                              (failed_count st) url)
                 else checkpoint_file w)).
Proof.
  unfold process_url.
  pose proof (checkpoint_retry_loop _ (seqZ 0 max_retries)
                (checkpoint_extract_profile_data url) w) as Hk.
  fold (_retry_operation max_retries (extract_profile_data url)) in Hk.
  destruct (_retry_operation max_retries (extract_profile_data url) w)
    as [[[d|]|e] w1]; cbn [snd] in Hk.
  - unfold bind, append_row.
    destruct (csv_file w1); destruct ((successful_count st + 1) mod 10 =? 0) eqn:Hm; cbn;
      (do 2 eexists; split; [reflexivity|]; right; cbn; rewrite ?Hm; auto).
  - do 2 eexists. split; [reflexivity|]. left. cbn. auto.
  - do 2 eexists. split; [reflexivity|]. left. cbn. auto.
Qed.

(** X18. The loop always returns, and its counters never decrease. The
    checkpoint is left as it was while the success count reaches no new
    multiple of ten. Otherwise it was written for one record of the work
    list: its URL is the URL of that record, its position is the position
    of that record (counted from the position of the first one), its total
    is the size given for the work list, the record was a success that
    made the success count the last multiple of ten reached, and its
    success and failure counts are the counts right after that record. *)
Theorem X18_checkpoint_every_tenth_success (total : Z) (urls : list string) :
  forall st idx w,
  exists st' w',
    scrape_loop max_retries total st idx urls w = (Return st', w')
    /\ successful_count st <= successful_count st'
    /\ failed_count st <= failed_count st'
    /\ (successful_count st' / 10 = successful_count st / 10 ->
        checkpoint_file w' = checkpoint_file w)
    /\ (successful_count st' / 10 <> successful_count st / 10 ->
        exists cp pre post st0 w0 st1 w1,
          checkpoint_file w' = Some cp
          /\ urls = pre ++ cp_url cp :: post
          /\ cp_last_processed cp = idx + Z.of_nat (length pre)
          /\ cp_total cp = total
          /\ scrape_loop max_retries total st idx pre w = (Return st0, w0)
          /\ process_url max_retries total st0 (cp_last_processed cp) (cp_url cp) w0
             = (Return st1, w1)
          /\ successful_count st1 = successful_count st0 + 1
          /\ cp_successful cp = successful_count st1
          /\ cp_failed cp = failed_count st1
          /\ cp_successful cp = 10 * (successful_count st' / 10)).
Proof.
  induction urls as [|url urls IH]; intros st idx w.
  - exists st, w. cbn [scrape_loop].
    split; [reflexivity|]. split; [lia|]. split; [lia|]. split; [reflexivity|].
    intros H. now destruct H.
  - cbn [scrape_loop]. unfold bind.
    destruct (process_url_checkpoint total idx st url w) as (sa & wa & Hp & Hcase).
    rewrite Hp.
    destruct (IH sa (idx + 1) wa) as (st' & w' & Hl & Hms & Hmf & Hsame & Hnew).
    exists st', w'. split; [exact Hl|].
    assert (Hlater : successful_count st' / 10 <> successful_count sa / 10 ->
                     exists cp pre post st0 w0 st1 w1,
                       checkpoint_file w' = Some cp
                       /\ url :: urls = pre ++ cp_url cp :: post
                       /\ cp_last_processed cp = idx + Z.of_nat (length pre)
                       /\ cp_total cp = total
                       /\ scrape_loop max_retries total st idx pre w = (Return st0, w0)
                       /\ process_url max_retries total st0 (cp_last_processed cp)
                            (cp_url cp) w0
                          = (Return st1, w1)
                       /\ successful_count st1 = successful_count st0 + 1
                       /\ cp_successful cp = successful_count st1
                       /\ cp_failed cp = failed_count st1
                       /\ cp_successful cp = 10 * (successful_count st' / 10)).
    { intros H.
      destruct (Hnew H)
        as (cp & pre & post & st0 & w0 & st1 & w1
            & H1 & H2 & H3 & H4 & H5 & H6 & H7 & H8 & H9 & H10).
      exists cp, (url :: pre), post, st0, w0, st1, w1.
      split; [exact H1|]. split; [now rewrite H2|].
      split; [cbn [length]; lia|]. split; [exact H4|].
      split; [cbn [scrape_loop]; unfold bind; now rewrite Hp|].
      split; [exact H6|]. split; [exact H7|]. split; [exact H8|].
      split; [exact H9 | exact H10]. }
    destruct Hcase as [(Hs & Hf & Hc) | (Hs & Hf & Hc)].
    + split; [lia|]. split; [lia|]. rewrite <- Hs. split.
      * intros H. now rewrite (Hsame H).
      * exact Hlater.
    + destruct (Z.eqb_spec ((successful_count st + 1) mod 10) 0) as [Hm | Hm].
      * assert (Hdiv : successful_count sa / 10 = successful_count st / 10 + 1
                       /\ successful_count sa = 10 * (successful_count sa / 10)).
        { rewrite Hs. Z.div_mod_to_equations. lia. }
        destruct Hdiv as [Hd1 Hd2].
        assert (Hd3 : successful_count sa / 10 <= successful_count st' / 10).
        { Z.div_mod_to_equations. lia. }
        split; [lia|]. split; [lia|]. split; [intros H; lia|].
        intros _.
        destruct (Z.eq_dec (successful_count st' / 10) (successful_count sa / 10))
          as [He | He]; [|exact (Hlater He)].
        exists (mkCheckpoint idx total (successful_count st + 1) (failed_count st) url),
          [], urls, st, w, sa, wa.
        cbn [cp_url cp_last_processed cp_total cp_successful cp_failed app length
             scrape_loop].
        split; [now rewrite (Hsame He)|]. split; [reflexivity|].
        split; [lia|]. split; [reflexivity|]. split; [reflexivity|].
        split; [exact Hp|]. split; [exact Hs|]. split; [now rewrite Hs|].
        split; [now rewrite Hf|]. rewrite He, <- Hd2. now rewrite Hs.
      * assert (Hdiv : successful_count sa / 10 = successful_count st / 10).
        { rewrite Hs. Z.div_mod_to_equations. lia. }
        split; [lia|]. split; [lia|]. rewrite <- Hdiv. split.
        -- intros H. now rewrite (Hsame H).
        -- exact Hlater.
Qed.

End CheckpointFacts.

(** * The further properties on the simulated directory *)

Lemma X1_runner_returns_a_value_or_raises_witness :
  (exists v w0 w1,
      _retry_operation 3 (extract_profile_data Sim.profile_url) (Sim.start Sim.flaky None)
      = (Return (Some v), w1)
      /\ extract_profile_data Sim.profile_url w0 = (Return v, w1))
  \/ (exists e w1,
         _retry_operation 3 (extract_profile_data Sim.profile_url) (Sim.start Sim.flaky None)
         = (Raise e, w1)).
Proof.
  apply (X1_runner_returns_a_value_or_raises 3 (extract_profile_data Sim.profile_url)
           (Sim.start Sim.flaky None)).
  lia.
Defined.

(** Without a connection and with three attempts the runner sleeps one
    second and then two. *)
Lemma X2_backoff_schedule_witness :
  exists w1,
    _retry_operation (browser := Sim.offline_browser) 3
      (extract_profile_data (browser := Sim.offline_browser) Sim.profile_url) Sim.unplugged
    = (Raise "timeout", w1)
    /\ sleeps w1 = [1; 2]
    /\ slept w1 = 3.
Proof.
  apply (X2_backoff_schedule (browser := Sim.offline_browser) 3
           (extract_profile_data (browser := Sim.offline_browser) Sim.profile_url)
           "timeout" Sim.unplugged).
  - lia.
  - intros w0. eexists. split; [reflexivity|].
    unfold sleeps, log_event. cbn [trace with_env].
    rewrite flat_map_app. cbn [flat_map app]. apply app_nil_r.
  - vm_compute. reflexivity.
Defined.

Lemma X3_harvest_only_appends_witness :
  exists out w2 new,
    scrape_all Sim.urlencode Sim.isna 3 (mkFilter "A" "" "" "")
      (Sim.start Sim.overlapping (Some Sim.earlier_output))
    = (Return out, w2)
    /\ csv_file w2
       = Some (mkLedger (header Sim.earlier_output) (rows Sim.earlier_output ++ new))
    /\ map URL new
       `sublist_of` urls_to_scrape_of
                      ["https://npidb.org/npi/1"; "https://npidb.org/npi/1"]
                      (read_scraped_urls Sim.isna (Some Sim.earlier_output)).
Proof.
  apply (X3_harvest_only_appends Sim.urlencode Sim.isna 3 (mkFilter "A" "" "" "")
           (Sim.start Sim.overlapping (Some Sim.earlier_output))
           (snd (scrape_search_results Sim.urlencode 3 (mkFilter "A" "" "" "")
                   (Sim.start Sim.overlapping (Some Sim.earlier_output))))).
  vm_compute. reflexivity.
Defined.

(** moms.csv has the header of the program and the row of another
    profile. The profile found under two last initials is fetched twice,
    both times with success; the next run has nothing to fetch. *)
Lemma X4_complete_run_leaves_no_work_witness :
  urls_to_scrape_of ["https://npidb.org/npi/1"; "https://npidb.org/npi/1"]
    (read_scraped_urls Sim.isna
       (csv_file (snd (scrape_all Sim.urlencode Sim.isna 3 (mkFilter "A" "" "" "")
                         (Sim.start Sim.overlapping (Some Sim.other_output))))))
  = []
  /\ map URL
       (rows_of (csv_file (snd (scrape_all Sim.urlencode Sim.isna 3 (mkFilter "A" "" "" "")
                                 (Sim.start Sim.overlapping (Some Sim.other_output))))))
     = ["https://npidb.org/npi/9"; "https://npidb.org/npi/1"; "https://npidb.org/npi/1"].
Proof.
  pose (w := Sim.start Sim.overlapping (Some Sim.other_output)).
  pose (w1 := snd (scrape_search_results Sim.urlencode 3 (mkFilter "A" "" "" "") w)).
  pose (all_urls := ["https://npidb.org/npi/1"; "https://npidb.org/npi/1"]).
  pose (r := mkRecord "https://npidb.org/npi/1" "" "" []).
  pose (w2 := snd (scrape_loop 3 2 (mkLoop [] 0 0) 1 all_urls (snd (init_csv w1)))).
  destruct (X4_complete_run_leaves_no_work Sim.urlencode Sim.isna 3 (mkFilter "A" "" "" "")
              w w1 w2 all_urls (mkLoop [Some r; Some r] 2 0)) as (Hrun & _ & Hnone).
  - vm_compute. reflexivity.
  - intros ledger H. injection H as <-. reflexivity.
  - intros u Hu.
    apply elem_of_cons in Hu as [-> | Hu]; [reflexivity|].
    apply elem_of_cons in Hu as [-> | Hu]; [reflexivity|].
    now apply elem_of_nil in Hu.
  - vm_compute. reflexivity.
  - reflexivity.
  - fold w. rewrite Hrun. split; [exact Hnone | vm_compute; reflexivity].
Defined.

Lemma X5_no_attempts_no_rows_witness :
  scrape_loop 0 2 (mkLoop [] 0 0) 1
    ["https://npidb.org/npi/1"; "https://npidb.org/npi/2"] (Sim.start Sim.overlapping None)
  = (Return (mkLoop [None; None] 0 2), Sim.start Sim.overlapping None).
Proof.
  apply (X5_no_attempts_no_rows 0 2 1 (mkLoop [] 0 0)
           ["https://npidb.org/npi/1"; "https://npidb.org/npi/2"]
           (Sim.start Sim.overlapping None)).
  lia.
Defined.

Lemma X7_page_urls_absolute_and_distinct_witness :
  NoDup (page_urls (Sim.page_of ["/npi/1"; "/npi/2"])).
Proof.
  apply (X7_page_urls_absolute_and_distinct (Sim.page_of ["/npi/1"; "/npi/2"])).
  intros t [Ht | (row & Hrow & Ht)].
  - change (t ∈ [Sim.link "/npi/1"; Sim.link "/npi/2"]) in Ht.
    apply elem_of_cons in Ht as [-> | Ht]; [reflexivity|].
    apply elem_of_cons in Ht as [-> | Ht]; [reflexivity|].
    now apply elem_of_nil in Ht.
  - change (row ∈ [[Sim.link "/npi/1"]; [Sim.link "/npi/2"]]) in Hrow.
    apply elem_of_cons in Hrow as [-> | Hrow];
      [|apply elem_of_cons in Hrow as [-> | Hrow]; [|now apply elem_of_nil in Hrow]];
      (apply elem_of_cons in Ht as [-> | Ht]; [reflexivity | now apply elem_of_nil in Ht]).
Defined.

Lemma X8_discovered_urls_are_absolute_witness :
  Str.startswith "https://npidb.org/npi/1" "http" = true
  /\ "https://npidb.org/npi/1" <> EmptyString.
Proof.
  apply (X8_discovered_urls_are_absolute Sim.urlencode 3 (mkFilter "A" "" "" "")
           (Sim.start Sim.overlapping None)
           (snd (scrape_search_results Sim.urlencode 3 (mkFilter "A" "" "" "")
                   (Sim.start Sim.overlapping None)))
           ["https://npidb.org/npi/1"; "https://npidb.org/npi/1"]).
  - vm_compute. reflexivity.
  - apply elem_of_cons. now left.
Defined.

(** Three levels are enough below a filter with a one-letter last name. *)
Lemma X9_nesting_is_bounded_witness :
  recursive_search_upto Sim.urlencode 3 3 "AA" "B" "C" "CA" (Sim.start Sim.crowded None)
  = recursive_search Sim.urlencode 3 "AA" "B" "C" "CA" (Sim.start Sim.crowded None)
  /\ (depth "AA" "B" "C" "CA" <= 6)%nat.
Proof.
  apply (X9_nesting_is_bounded Sim.urlencode 3 3 "AA" "B" "C" "CA"
           (Sim.start Sim.crowded None)).
  vm_compute. lia.
Defined.

(** The probe of the first child fails at the only attempt. *)
Lemma X10_probe_failure_ends_the_search_witness :
  fst (resolve Sim.urlencode 1 (mkFilter "A" "" "" "") (Sim.start Sim.broken None))
  = Raise "timeout".
Proof.
  pose (w := Sim.start Sim.broken None).
  pose (w1 := snd (probe Sim.urlencode 1 (mkFilter "A" "" "" "") w)).
  pose (w3 := snd (probe Sim.urlencode 1 (mkFilter "A" "A" "" "") w1)).
  destruct (X10_probe_failure_ends_the_search Sim.urlencode 1
              (mkFilter "A" "" "" "") (mkFilter "A" "A" "" "") []
              (map (fun l => mkFilter "A" l "" "") (tl (Str.chars ALPHABET)))
              w w1 w1 w3 (Some None) [] "timeout") as [_ Hf].
  - vm_compute. reflexivity.
  - now right.
  - reflexivity.
  - constructor.
  - vm_compute. reflexivity.
  - fold w. now rewrite Hf.
Defined.

Lemma X11_discovery_failure_writes_nothing_witness :
  fst (scrape_all Sim.urlencode Sim.isna 1 (mkFilter "A" "" "" "")
         (Sim.start Sim.broken (Some Sim.earlier_output)))
  = Raise "timeout"
  /\ csv_file (snd (scrape_all Sim.urlencode Sim.isna 1 (mkFilter "A" "" "" "")
                      (Sim.start Sim.broken (Some Sim.earlier_output))))
     = Some Sim.earlier_output.
Proof.
  pose (w := Sim.start Sim.broken (Some Sim.earlier_output)).
  pose (w1 := snd (scrape_search_results Sim.urlencode 1 (mkFilter "A" "" "" "") w)).
  destruct (X11_discovery_failure_writes_nothing Sim.urlencode Sim.isna 1
              (mkFilter "A" "" "" "") w w1 "timeout") as [Hrun Hfile].
  - vm_compute. reflexivity.
  - fold w. rewrite Hrun. split; [reflexivity | exact Hfile].
Defined.

Lemma X12_unconstrained_discovery_is_a_set_witness :
  exists all_urls,
    fst (scrape_search_results Sim.urlencode 3 (mkFilter "" "" "" "")
           (Sim.start Sim.quiet None))
    = Return all_urls
    /\ NoDup all_urls.
Proof.
  pose (w := Sim.start Sim.quiet None).
  pose (cs := map (fun f => mkFilter f "" "" "") (Str.chars ALPHABET)).
  pose (w1 := snd (extend_each [] cs (resolve Sim.urlencode 3) w)).
  destruct (in_turn_resolve_all Sim.urlencode 3 cs [] w ["https://npidb.org/npi/7"] w1)
    as (rs & Hrs & _); [vm_compute; reflexivity|].
  destruct (X12_unconstrained_discovery_is_a_set Sim.urlencode 3 (mkFilter "" "" "" "")
              w w1 rs) as (all_urls & Hrun & Hdistinct & _).
  - reflexivity.
  - exact Hrs.
  - exists all_urls. fold w. rewrite Hrun. split; [reflexivity | exact Hdistinct].
Defined.

Lemma X16_name_columns_hold_the_words_witness :
  let nf := name_fields (Some "JOHN A SMITH, MD") in
  Py.split "JOHN A SMITH"
  = first_name nf :: Py.split (middle_name nf) ++ [last_name nf].
Proof.
  apply (X16_name_columns_hold_the_words "JOHN A SMITH, MD").
  vm_compute. lia.
Defined.
